(** * SolAnchorGen: a shallow embedding of the registry, the validator,
    the template generators and the workspace generation pipeline. *)

From Stdlib Require Import String Ascii List ZArith Bool Lia.
Import ListNotations.
Set Warnings "-register-all".

Open Scope list_scope.
Open Scope string_scope.

(** ** JavaScript strings

    A JS string is modelled as a [string]; each [ascii] stands for one
    UTF-16 code unit in the range 0..255 (Latin-1). *)
Module Js.

Definition dq : string := String "034"%char EmptyString.
Definition nl : string := String "010"%char EmptyString.

Definition code (c : ascii) : nat := nat_of_ascii c.

(** Characters that [String.prototype.trim] removes (the Latin-1 part of
    the WhiteSpace and LineTerminator productions). *)
Definition is_ws (c : ascii) : bool :=
  let n := code c in
  (Nat.eqb n 9) || (Nat.eqb n 10) || (Nat.eqb n 11) || (Nat.eqb n 12) || (Nat.eqb n 13)
  || (Nat.eqb n 32) || (Nat.eqb n 160).

Fixpoint trim_start (s : string) : string :=
  match s with
  | EmptyString => EmptyString
  | String c r => if is_ws c then trim_start r else s
  end.

Definition trim (s : string) : string :=
  string_of_list_ascii (rev (list_ascii_of_string
    (trim_start (string_of_list_ascii (rev (list_ascii_of_string
      (trim_start s))))))).

(** [toLowerCase] on Latin-1 code units. *)
Definition lower_char (c : ascii) : ascii :=
  let n := code c in
  if ((Nat.leb 65 n) && (Nat.leb n 90)) || ((Nat.leb 192 n) && (Nat.leb n 222) && negb (Nat.eqb n 215))
  then ascii_of_nat (n + 32) else c.

Fixpoint toLowerCase (s : string) : string :=
  match s with
  | EmptyString => EmptyString
  | String c r => String (lower_char c) (toLowerCase r)
  end.

(** [s.replace(/-/g, '_')] *)
Fixpoint replace_hyphens (s : string) : string :=
  match s with
  | EmptyString => EmptyString
  | String c r =>
      String (if Ascii.eqb c "-"%char then "_"%char else c) (replace_hyphens r)
  end.

Definition is_letter (c : ascii) : bool :=
  let n := code c in ((Nat.leb 65 n) && (Nat.leb n 90)) || ((Nat.leb 97 n) && (Nat.leb n 122)).

Definition is_digit (c : ascii) : bool :=
  let n := code c in (Nat.leb 48 n) && (Nat.leb n 57).

(** The character class [[a-zA-Z0-9_-]]. *)
Definition is_name_char (c : ascii) : bool :=
  is_letter c || is_digit c || Ascii.eqb c "_"%char || Ascii.eqb c "-"%char.

Fixpoint all_chars (p : ascii -> bool) (s : string) : bool :=
  match s with
  | EmptyString => true
  | String c r => p c && all_chars p r
  end.

(** [/^[a-zA-Z0-9_-]+$/.test(s)] *)
Definition valid_name_pattern (s : string) : bool :=
  match s with
  | EmptyString => false
  | _ => all_chars is_name_char s
  end.

(** [/^[a-zA-Z]/.test(s)] *)
Definition starts_with_letter (s : string) : bool :=
  match s with
  | EmptyString => false
  | String c _ => is_letter c
  end.

(** [s.split('/')] *)
Fixpoint split_slash (s : string) : list string :=
  match s with
  | EmptyString => [EmptyString]
  | String c r =>
      if Ascii.eqb c "/"%char then EmptyString :: split_slash r
      else match split_slash r with
           | h :: t => String c h :: t
           | [] => [String c EmptyString]
           end
  end.

End Js.

(** ** POSIX [path.resolve]

    An absolute, normalised path is the list of its segments. [resolve]
    folds the arguments left to right: an argument starting with [/]
    restarts from the root, [""] and ["."] segments are dropped and [".."]
    drops the last segment (never above the root). This is the result of
    Node's right-to-left scan followed by [normalizeString]. *)
Module Path.

Definition path := list string.

Definition norm_seg (acc : path) (seg : string) : path :=
  if String.eqb seg "" then acc
  else if String.eqb seg "." then acc
  else if String.eqb seg ".." then removelast acc
  else (acc ++ [seg])%list.

Definition resolve_one (acc : path) (arg : string) : path :=
  let base := match arg with
              | String c _ => if Ascii.eqb c "/"%char then [] else acc
              | EmptyString => acc
              end in
  fold_left norm_seg (Js.split_slash arg) base.

(** [path.resolve(...args)] evaluated with working directory [cwd]. *)
Definition resolve (cwd : path) (args : list string) : path :=
  fold_left resolve_one args cwd.

(** The string form of an absolute normalised path. *)
Definition to_string (p : path) : string :=
  match p with
  | [] => "/"
  | _ => String.concat "" (map (fun s => "/" ++ s) p)
  end.

End Path.

(** ** The file system

    The disk is an association list from absolute normalised paths to
    entries; the root always exists. *)
Module Fs.

Inductive entry := Dir | File (content : string).

Definition disk := list (Path.path * entry).

Fixpoint path_eqb (p q : Path.path) : bool :=
  match p, q with
  | [], [] => true
  | a :: p', b :: q' => String.eqb a b && path_eqb p' q'
  | _, _ => false
  end.

Fixpoint lookup (d : disk) (p : Path.path) : option entry :=
  match d with
  | [] => None
  | (q, e) :: d' => if path_eqb p q then Some e else lookup d' p
  end.

(** [existsSync(p)] and [access(p, F_OK)] *)
Definition exists_path (d : disk) (p : Path.path) : bool :=
  match p with
  | [] => true
  | _ => match lookup d p with Some _ => true | None => false end
  end.

End Fs.

(** ** [Validator.validateProjectName]

    [boolean | string] is [bool + string]; [process.cwd()] is [cwd]. *)
Module Validator.

Definition reservedNames : list string :=
  ["node_modules"; "test"; "dist"; "build"; ".git"].

Definition includes (l : list string) (s : string) : bool :=
  existsb (String.eqb s) l.

Definition validateProjectName (cwd : Path.path) (d : Fs.disk) (name : string)
  : bool + string :=
  if String.eqb name "" || String.eqb (Js.trim name) "" then
    inr "Project name cannot be empty"
  else if negb (Js.valid_name_pattern name) then
    inr "Project name can only contain letters, numbers, hyphens, and underscores"
  else if negb (Js.starts_with_letter name) then
    inr "Project name must start with a letter"
  else if Nat.ltb 50 (String.length name) then
    inr "Project name must be 50 characters or less"
  else if includes reservedNames (Js.toLowerCase name) then
    inr ("Project name " ++ Js.dq ++ name ++ Js.dq ++ " is reserved and cannot be used")
  else if Fs.exists_path d (Path.resolve cwd [name]) then
    inr ("Directory " ++ Js.dq ++ name ++ Js.dq ++ " already exists in the current location")
  else inl true.

End Validator.

(** ** JavaScript values

    Numbers are modelled on their integral part: [Fin z] is an integral
    number and [NaN] is not-a-number. [Number(s)] on a string accepts
    optional surrounding white space, an optional sign and decimal digits;
    numeric literals outside that fragment (fractions, exponents, hex,
    [Infinity]) are not modelled and yield [NaN]. *)
Module Val.

Inductive jsnum := NaN | Fin (z : Z).

Inductive jsval :=
| JUndef
| JNull
| JBool (b : bool)
| JNum (n : jsnum)
| JStr (s : string).

(** Truthiness, as used by [||] and [Boolean(v)]. *)
Definition truthy (v : jsval) : bool :=
  match v with
  | JUndef | JNull => false
  | JBool b => b
  | JNum NaN => false
  | JNum (Fin z) => negb (Z.eqb z 0)
  | JStr s => negb (String.eqb s "")
  end.

(** [a || b] *)
Definition or (a b : jsval) : jsval := if truthy a then a else b.

Definition is_undefined (v : jsval) : bool :=
  match v with JUndef => true | _ => false end.

Fixpoint digits_value (s : string) (acc : Z) : option Z :=
  match s with
  | EmptyString => Some acc
  | String c r =>
      if Js.is_digit c
      then digits_value r (acc * 10 + Z.of_nat (Js.code c - 48))
      else None
  end.

Definition parse_unsigned (s : string) : jsnum :=
  match s with
  | EmptyString => NaN
  | _ => match digits_value s 0 with Some z => Fin z | None => NaN end
  end.

Definition string_to_number (s : string) : jsnum :=
  match Js.trim s with
  | EmptyString => Fin 0
  | String c r =>
      if Ascii.eqb c "-"%char then
        match parse_unsigned r with Fin z => Fin (- z) | NaN => NaN end
      else if Ascii.eqb c "+"%char then parse_unsigned r
      else parse_unsigned (String c r)
  end.

(** [Number(v)] *)
Definition Number (v : jsval) : jsnum :=
  match v with
  | JUndef => NaN
  | JNull => Fin 0
  | JBool b => Fin (if b then 1 else 0)
  | JNum n => n
  | JStr s => string_to_number s
  end.

(** [value >= lo && value <= hi] for integer bounds. *)
Definition in_range (v : jsval) (lo hi : Z) : bool :=
  match Number v with
  | NaN => false
  | Fin z => Z.leb lo z && Z.leb z hi
  end.

Definition digit_char (n : Z) : ascii := ascii_of_nat (48 + Z.to_nat n).

Fixpoint digits_rev (fuel : nat) (n : Z) (acc : string) : string :=
  match fuel with
  | O => acc
  | S f =>
      let acc' := String (digit_char (n mod 10)) acc in
      if Z.ltb n 10 then acc' else digits_rev f (n / 10) acc'
  end.

Definition nat_digits (n : Z) : string := digits_rev (S (Z.to_nat n)) n "".

(** [String(v)], as used by template interpolation. *)
Definition to_string (v : jsval) : string :=
  match v with
  | JUndef => "undefined"
  | JNull => "null"
  | JBool b => if b then "true" else "false"
  | JNum NaN => "NaN"
  | JNum (Fin z) => if Z.ltb z 0 then "-" ++ nat_digits (- z) else nat_digits z
  | JStr s => s
  end.

(** A JS object used as a record: insertion-ordered, keys unique. A
    missing key reads as [undefined]. *)
Definition obj (A : Type) := list (string * A).

Fixpoint get {A} (o : obj A) (k : string) : option A :=
  match o with
  | [] => None
  | (k', v) :: o' => if String.eqb k k' then Some v else get o' k
  end.

Definition getv (o : obj jsval) (k : string) : jsval :=
  match get o k with Some v => v | None => JUndef end.

(** [o[k] = v]: an existing key keeps its position. *)
Fixpoint set {A} (o : obj A) (k : string) (v : A) : obj A :=
  match o with
  | [] => [(k, v)]
  | (k', v') :: o' => if String.eqb k k' then (k, v) :: o' else (k', v') :: set o' k v
  end.

(** [{ ...a, ...b }] *)
Definition spread {A} (a b : obj A) : obj A :=
  fold_left (fun acc kv => set acc (fst kv) (snd kv)) b a.

End Val.

(** ** Templates and the registry ([templates/registry.ts],
    [templates/generator.ts]) *)
Module Tpl.
Import Val.

Record GeneratorContext := {
  projectName : string;
  projectPath : string;
  options : obj jsval
}.

Record GeneratedFile := { path : string; content : string }.

Definition Dependencies := obj string.

(** A generator's methods. [path.resolve] reads [process.cwd()], which is
    the first argument of [generate]. *)
Record TemplateGenerator := {
  generate : Path.path -> GeneratorContext -> list GeneratedFile;
  getDependencies : GeneratorContext -> Dependencies;
  getDevDependencies : GeneratorContext -> Dependencies
}.

Inductive OptionType := TString | TNumber | TBoolean.

Record TemplateOption := {
  opt_name : string;
  flag : string;
  description : string;
  type : OptionType;
  defaultValue : option jsval;
  validate : option (jsval -> bool)
}.

Record Template := {
  id : string;
  tname : string;
  tdescription : string;
  toptions : list TemplateOption;
  generator : TemplateGenerator
}.

(** [TemplateRegistry]: the private [Map<string, Template>], in insertion
    order. *)
Definition Registry := obj Template.

Definition hasTemplate (r : Registry) (i : string) : bool :=
  match get r i with Some _ => true | None => false end.

Definition getTemplate (r : Registry) (i : string) : option Template := get r i.

Definition getAllTemplates (r : Registry) : list Template := map snd r.

(** [registerTemplate]: throws (an [Error] with this message) or updates
    the map; a throw leaves the registry as it was. *)
Definition registerTemplate (r : Registry) (t : Template) : (unit + string) * Registry :=
  if hasTemplate r (id t) then
    (inr ("Template with id " ++ Js.dq ++ id t ++ Js.dq ++ " is already registered"), r)
  else (inl tt, set r (id t) t).

End Tpl.

(** ** The six template generators

    Every line of a template literal that interpolates a value is written
    out. A run of template lines without interpolation is static text,
    independent of the context, and is written [static tpl file k]: the
    [k]-th such run of [file] in template [tpl]. *)
Module Gen.
Import Val Tpl.

Definition static (tpl file : string) (k : nat) : string :=
  "<" ++ tpl ++ "/" ++ file ++ "#" ++ nat_digits (Z.of_nat k) ++ ">".

Definition nl := Js.nl.
Definition dq := Js.dq.

(** [createFile] *)
Definition createFile (p c : string) : GeneratedFile := {| path := p; content := c |}.

Fixpoint split_char (sep : ascii) (s : string) : list string :=
  match s with
  | EmptyString => [EmptyString]
  | String c r =>
      if Ascii.eqb c sep then EmptyString :: split_char sep r
      else match split_char sep r with
           | h :: t => String c h :: t
           | [] => [String c EmptyString]
           end
  end.

(** [toUpperCase] on one Latin-1 code unit whose upper case is one Latin-1
    code unit; other code units are left unchanged. *)
Definition upper_char (c : ascii) : ascii :=
  let n := Js.code c in
  if (Nat.leb 97 n && Nat.leb n 122) || (Nat.leb 224 n && Nat.leb n 254 && negb (Nat.eqb n 247))
  then ascii_of_nat (n - 32) else c.

(** [word.charAt(0).toUpperCase() + word.slice(1)] *)
Definition capitalize (w : string) : string :=
  match w with
  | EmptyString => EmptyString
  | String c r => String (upper_char c) r
  end.

(** [toPascalCase] *)
Definition toPascalCase (s : string) : string :=
  String.concat "" (map capitalize (split_char "_"%char s)).

(** The file paths, the same expressions in all six generators. *)
Definition at_ (cwd : Path.path) (ctx : GeneratorContext) (rel : list string) : string :=
  Path.to_string (Path.resolve cwd (projectPath ctx :: rel)).

Definition lib_rs_path cwd ctx := at_ cwd ctx ["programs"; projectName ctx; "src"; "lib.rs"].
Definition cargo_path cwd ctx := at_ cwd ctx ["programs"; projectName ctx; "Cargo.toml"].
Definition tests_path cwd ctx := at_ cwd ctx ["tests"; projectName ctx ++ ".ts"].
Definition sdk_path cwd ctx := at_ cwd ctx ["app"; "src"; "index.ts"].
Definition readme_path cwd ctx := at_ cwd ctx ["README.md"].
Definition tsconfig_path cwd ctx := at_ cwd ctx ["tsconfig.json"].

Definition programName (ctx : GeneratorContext) : string :=
  Js.replace_hyphens (projectName ctx).

(** [options.tokenDecimals || 9] *)
Definition decimals (ctx : GeneratorContext) : jsval :=
  or (getv (options ctx) "tokenDecimals") (JNum (Fin 9)).

(** Contents shared by the shape of all six generators. *)
Definition cargo_toml (tpl : string) (ctx : GeneratorContext) : string :=
  "[package]" ++ nl
  ++ "name = " ++ dq ++ programName ctx ++ dq ++ nl
  ++ static tpl "Cargo.toml" 0
  ++ "name = " ++ dq ++ programName ctx ++ dq ++ nl
  ++ static tpl "Cargo.toml" 1.

Definition tests_head (tpl : string) (ctx : GeneratorContext) : string :=
  let P := toPascalCase (programName ctx) in
  static tpl "tests.ts" 0
  ++ "import { " ++ P ++ " } from " ++ dq ++ "../target/types/" ++ programName ctx ++ dq ++ ";" ++ nl
  ++ static tpl "tests.ts" 1
  ++ "describe(" ++ dq ++ projectName ctx ++ dq ++ ", () => {" ++ nl
  ++ static tpl "tests.ts" 2
  ++ "  const program = anchor.workspace." ++ P ++ " as Program<" ++ P ++ ">;" ++ nl.

Definition readme_head (ctx : GeneratorContext) : string :=
  "# " ++ projectName ctx ++ nl.

(** The generators of marketplace, vault, governance and escrow (and the
    program, tests and README of nft-minting) have one interpolation shape. *)
Definition plain_generate (tpl : string) (cwd : Path.path) (ctx : GeneratorContext)
  : list GeneratedFile :=
  [ createFile (lib_rs_path cwd ctx)
      (static tpl "lib.rs" 0 ++ "pub mod " ++ programName ctx ++ " {" ++ nl
       ++ static tpl "lib.rs" 1);
    createFile (cargo_path cwd ctx) (cargo_toml tpl ctx);
    createFile (tests_path cwd ctx) (tests_head tpl ctx ++ static tpl "tests.ts" 3);
    createFile (sdk_path cwd ctx) (static tpl "index.ts" 0);
    createFile (readme_path cwd ctx) (readme_head ctx ++ static tpl "README.md" 0);
    createFile (tsconfig_path cwd ctx) (static tpl "tsconfig.json" 0) ].

(** [StakingGenerator.generate]: the program, tests and README interpolate
    [decimals]. *)
Definition staking_program_code (ctx : GeneratorContext) : string :=
  static "staking" "lib.rs" 0
  ++ "const TOKEN_DECIMALS: u8 = " ++ to_string (decimals ctx) ++ ";" ++ nl
  ++ static "staking" "lib.rs" 1
  ++ "pub mod " ++ programName ctx ++ " {" ++ nl
  ++ static "staking" "lib.rs" 2.

Definition staking_tests (ctx : GeneratorContext) : string :=
  tests_head "staking" ctx
  ++ static "staking" "tests.ts" 3
  ++ "      " ++ to_string (decimals ctx) ++ nl
  ++ static "staking" "tests.ts" 4
  ++ "      " ++ to_string (decimals ctx) ++ nl
  ++ static "staking" "tests.ts" 5
  ++ "    const stakeAmount = 1000 * 10 ** " ++ to_string (decimals ctx) ++ ";" ++ nl
  ++ static "staking" "tests.ts" 6.

Definition staking_readme (ctx : GeneratorContext) : string :=
  readme_head ctx ++ static "staking" "README.md" 0
  ++ "- Token Decimals: " ++ to_string (decimals ctx) ++ nl
  ++ static "staking" "README.md" 1.

Definition staking_generate (cwd : Path.path) (ctx : GeneratorContext) : list GeneratedFile :=
  [ createFile (lib_rs_path cwd ctx) (staking_program_code ctx);
    createFile (cargo_path cwd ctx) (cargo_toml "staking" ctx);
    createFile (tests_path cwd ctx) (staking_tests ctx);
    createFile (sdk_path cwd ctx) (static "staking" "index.ts" 0);
    createFile (readme_path cwd ctx) (staking_readme ctx);
    createFile (tsconfig_path cwd ctx) (static "staking" "tsconfig.json" 0) ].

(** [BaseTemplateGenerator.getDependencies] / [getDevDependencies] *)
Definition base_dependencies : Dependencies :=
  [("@coral-xyz/anchor", "^0.29.0"); ("@solana/web3.js", "^1.87.0")].

Definition base_dev_dependencies : Dependencies :=
  [("@types/node", "^20.0.0"); ("typescript", "^5.3.0"); ("ts-node", "^10.9.0");
   ("chai", "^4.3.0"); ("@types/chai", "^4.3.0")].

(** The [getDependencies] override of all six generators. *)
Definition spl_dependencies : Dependencies :=
  [("@coral-xyz/anchor", "^0.29.0"); ("@solana/web3.js", "^1.87.0");
   ("@solana/spl-token", "^0.3.9")].

(** [NftMintingGenerator.getDevDependencies]:
    [{ ...super.getDevDependencies(context), '@types/mocha': ..., mocha: ... }] *)
Definition nft_dev_dependencies : Dependencies :=
  spread base_dev_dependencies [("@types/mocha", "^10.0.0"); ("mocha", "^10.2.0")].

Definition StakingGenerator : TemplateGenerator :=
  {| generate := staking_generate;
     getDependencies := fun _ => spl_dependencies;
     getDevDependencies := fun _ => base_dev_dependencies |}.

Definition NftMintingGenerator : TemplateGenerator :=
  {| generate := plain_generate "nft-minting";
     getDependencies := fun _ => spl_dependencies;
     getDevDependencies := fun _ => nft_dev_dependencies |}.

Definition plain_generator (tpl : string) : TemplateGenerator :=
  {| generate := plain_generate tpl;
     getDependencies := fun _ => spl_dependencies;
     getDevDependencies := fun _ => base_dev_dependencies |}.

Definition EscrowGenerator := plain_generator "escrow".
Definition GovernanceGenerator := plain_generator "governance".
Definition MarketplaceGenerator := plain_generator "marketplace".
Definition VaultGenerator := plain_generator "vault".

End Gen.

(** ** [createTemplateRegistry] ([templates/index.ts]) *)
Module Templates.
Import Val Tpl Gen.

Definition tokenDecimalsOption : TemplateOption :=
  {| opt_name := "tokenDecimals";
     flag := "token-decimals";
     description := "Token decimals (default: 9)";
     type := TNumber;
     defaultValue := Some (JNum (Fin 9));
     validate := Some (fun v => in_range v 0 18) |}.

Definition mk (i n d : string) (o : list TemplateOption) (g : TemplateGenerator) : Template :=
  {| id := i; tname := n; tdescription := d; toptions := o; generator := g |}.

Definition all_templates : list Template :=
  [ mk "nft-minting" "NFT Minting" "Complete NFT collection with metadata" [] NftMintingGenerator;
    mk "staking" "Token Staking" "Stake tokens and earn rewards" [tokenDecimalsOption] StakingGenerator;
    mk "escrow" "Escrow" "Secure peer-to-peer token swaps" [] EscrowGenerator;
    mk "governance" "Governance" "DAO voting and proposal system" [] GovernanceGenerator;
    mk "marketplace" "Marketplace" "Buy/sell NFTs with royalties" [] MarketplaceGenerator;
    mk "vault" "Vault" "Secure token custody with multi-sig" [] VaultGenerator ].

(** Sequential [registerTemplate] calls; the first throw ends the function. *)
Fixpoint register_all (r : Registry) (ts : list Template) : (unit + string) * Registry :=
  match ts with
  | [] => (inl tt, r)
  | t :: ts' =>
      match registerTemplate r t with
      | (inl _, r') => register_all r' ts'
      | (inr e, r') => (inr e, r')
      end
  end.

Definition createTemplateRegistry : (unit + string) * Registry := register_all [] all_templates.

Definition defaultRegistry : Registry := snd createTemplateRegistry.

End Templates.

(** ** [JSON.stringify(value, null, 2)]

    Object members keep insertion order: none of the keys written by this
    program is an array index, which [JSON.stringify] would list first. *)
Module Json.

Inductive json :=
| JSNull
| JSBool (b : bool)
| JSNum (z : Z)
| JSStr (s : string)
| JSArr (vs : list json)
| JSObj (kvs : list (string * json)).

Definition hex_digit (n : nat) : ascii :=
  if Nat.ltb n 10 then ascii_of_nat (48 + n) else ascii_of_nat (87 + n).

Definition escape_char (c : ascii) : string :=
  let n := Js.code c in
  if Nat.eqb n 34 then "\" ++ Js.dq
  else if Nat.eqb n 92 then "\\"
  else if Nat.eqb n 8 then "\b"
  else if Nat.eqb n 12 then "\f"
  else if Nat.eqb n 10 then "\n"
  else if Nat.eqb n 13 then "\r"
  else if Nat.eqb n 9 then "\t"
  else if Nat.ltb n 32 then
    "\u00" ++ String (hex_digit (n / 16)) (String (hex_digit (n mod 16)) EmptyString)
  else String c EmptyString.

Fixpoint escape (s : string) : string :=
  match s with
  | EmptyString => EmptyString
  | String c r => escape_char c ++ escape r
  end.

Definition quote (s : string) : string := Js.dq ++ escape s ++ Js.dq.

Fixpoint stringify_at (ind : string) (v : json) {struct v} : string :=
  let ind' := ind ++ "  " in
  match v with
  | JSNull => "null"
  | JSBool b => if b then "true" else "false"
  | JSNum z => Val.to_string (Val.JNum (Val.Fin z))
  | JSStr s => quote s
  | JSArr [] => "[]"
  | JSArr vs =>
      "[" ++ Js.nl
      ++ (fix items (vs : list json) : string :=
            match vs with
            | [] => ""
            | [x] => ind' ++ stringify_at ind' x
            | x :: r => ind' ++ stringify_at ind' x ++ "," ++ Js.nl ++ items r
            end) vs
      ++ Js.nl ++ ind ++ "]"
  | JSObj [] => "{}"
  | JSObj kvs =>
      "{" ++ Js.nl
      ++ (fix members (kvs : list (string * json)) : string :=
            match kvs with
            | [] => ""
            | [(k, x)] => ind' ++ quote k ++ ": " ++ stringify_at ind' x
            | (k, x) :: r => ind' ++ quote k ++ ": " ++ stringify_at ind' x ++ "," ++ Js.nl ++ members r
            end) kvs
      ++ Js.nl ++ ind ++ "}"
  end.

Definition stringify (v : json) : string := stringify_at "" v.

(** A [Record<string, string>] as a JSON object. *)
Definition of_deps (d : Tpl.Dependencies) : json :=
  JSObj (map (fun kv => (fst kv, JSStr (snd kv))) d).

Fixpoint member (kvs : list (string * json)) (k : string) : option json :=
  match kvs with
  | [] => None
  | (k', v) :: r => if String.eqb k k' then Some v else member r k
  end.

(** Property access [v[k]] on an object. *)
Definition field (v : json) (k : string) : option json :=
  match v with JSObj kvs => member kvs k | _ => None end.

End Json.

(** ** [path.dirname] (POSIX) *)
Module Dirname.

Fixpoint find_end (s : string) (i : nat) (matched : bool) : option nat :=
  match i with
  | O => None
  | S j =>
      match String.get i s with
      | Some c =>
          if Ascii.eqb c "/"%char then (if matched then find_end s j matched else Some i)
          else find_end s j false
      | None => find_end s j matched
      end
  end.

Definition dirname (s : string) : string :=
  match s with
  | EmptyString => "."
  | String c _ =>
      let hasRoot := Ascii.eqb c "/"%char in
      match find_end s (String.length s - 1) true with
      | None => if hasRoot then "/" else "."
      | Some e => if hasRoot && Nat.eqb e 1 then "//" else substring 0 e s
      end
  end.

End Dirname.

(** ** The workspace generator ([generator/workspace.ts]) and its
    collaborators ([FileSystemWriter], [PackageManager], [rmSync])

    A computation reads the environment and threads the disk; it returns a
    value or throws an [Error], identified by its message. The environment
    fixes [process.cwd()] and the outcome of every operating-system call,
    which is how faults are injected. Progress reporting and console output
    do not influence control flow and are left out. *)
Module Ws.
Import Val Tpl.

Definition Error := string.

Inductive InstallResult := Exited (code : Z) | SpawnError (msg : string).

Record Env := {
  cwd : Path.path;
  mkdir_fails : Path.path -> bool;     (** [mkdir] fails with an I/O error *)
  write_fails : Path.path -> bool;     (** [writeFile] fails with an I/O error *)
  pnpm_installed : bool;               (** [pnpm --version] succeeds *)
  install_result : InstallResult;      (** how [pnpm install] ends *)
  rm_fails : bool;                     (** [rmSync] throws *)
  rm_removed : Path.path -> bool       (** what a throwing [rmSync] removed first *)
}.

Definition M (A : Type) := Env -> Fs.disk -> (A + Error) * Fs.disk.

Definition ret {A} (a : A) : M A := fun _ d => (inl a, d).

Definition bind {A B} (m : M A) (k : A -> M B) : M B :=
  fun env d => match m env d with
               | (inl a, d') => k a env d'
               | (inr e, d') => (inr e, d')
               end.

Definition throw {A} (e : Error) : M A := fun _ d => (inr e, d).

(** [try { m } catch (e) { h(e) }] *)
Definition catch_ {A} (m : M A) (h : Error -> M A) : M A :=
  fun env d => match m env d with
               | (inl a, d') => (inl a, d')
               | (inr e, d') => h e env d'
               end.

Definition ask : M Env := fun env d => (inl env, d).

Notation "x <- m ;; k" := (bind m (fun x => k)) (at level 61, m at next level, right associativity).
Notation "m ;;; k" := (bind m (fun _ => k)) (at level 61, right associativity).

Fixpoint for_each {A} (f : A -> M unit) (l : list A) : M unit :=
  match l with
  | [] => ret tt
  | x :: r => f x ;;; for_each f r
  end.

Definition key (env : Env) (s : string) : Path.path := Path.resolve (cwd env) [s].

(** [path.resolve(a, b)] as a string. *)
Definition resolve2 (env : Env) (a b : string) : string :=
  Path.to_string (Path.resolve (cwd env) [a; b]).

Definition set_entry (d : Fs.disk) (p : Path.path) (e : Fs.entry) : Fs.disk :=
  (p, e) :: filter (fun pe => negb (Fs.path_eqb p (fst pe))) d.

(** [mkdir(p, { recursive: true })]: walks the ancestors from the root,
    creating the missing ones; a file on the way stops it, keeping the
    directories already created. *)
Fixpoint mkdir_walk (done_ : Path.path) (rest : list string) (d : Fs.disk)
  : option string * Fs.disk :=
  match rest with
  | [] => (None, d)
  | s :: r =>
      let q := (done_ ++ [s])%list in
      match Fs.lookup d q with
      | Some (Fs.File _) =>
          (Some (match r with [] => "EEXIST: file already exists" | _ => "ENOTDIR: not a directory" end), d)
      | Some Fs.Dir => mkdir_walk q r d
      | None => mkdir_walk q r (set_entry d q Fs.Dir)
      end
  end.

(** [FileSystemWriter.ensureDirectory] *)
Definition ensureDirectory (s : string) : M unit :=
  fun env d =>
    let p := key env s in
    let wrap cause := "Failed to ensure directory at " ++ s ++ ": " ++ cause in
    if mkdir_fails env p then (inr (wrap "EIO: i/o error"), d)
    else match mkdir_walk [] p d with
         | (None, d') => (inl tt, d')
         | (Some cause, d') => (inr (wrap cause), d')
         end.

Definition write_raw (s c : string) : M unit :=
  fun env d =>
    let p := key env s in
    match Fs.lookup d p with
    | Some Fs.Dir => (inr "EISDIR: illegal operation on a directory", d)
    | _ => if write_fails env p then (inr "EIO: i/o error", d)
           else (inl tt, set_entry d p (Fs.File c))
    end.

(** [FileSystemWriter.writeFile] *)
Definition writeFile (s c : string) : M unit :=
  catch_ (ensureDirectory (Dirname.dirname s) ;;; write_raw s c)
         (fun e => throw ("Failed to write file at " ++ s ++ ": " ++ e)).

(** [FileSystemWriter.pathExists] ([access] never throws out of it) *)
Definition pathExists (s : string) : M bool :=
  fun env d => (inl (Fs.exists_path d (key env s)), d).

Fixpoint is_prefix (p q : Path.path) : bool :=
  match p, q with
  | [], _ => true
  | a :: p', b :: q' => String.eqb a b && is_prefix p' q'
  | _, _ => false
  end.

(** [rmSync(s, { recursive: true, force: true })]. The recursive deletion
    removes the contents of a directory before the directory itself, so a
    call that throws may already have removed some of the entries strictly
    below the path ([rm_removed] says which) but not the path itself. *)
Definition rmSync (s : string) : M unit :=
  fun env d =>
    if rm_fails env then
      (inr "EACCES: permission denied",
       filter (fun pe => negb (is_prefix (key env s) (fst pe)
                               && negb (Fs.path_eqb (key env s) (fst pe))
                               && rm_removed env (fst pe))) d)
    else (inl tt, filter (fun pe => negb (is_prefix (key env s) (fst pe))) d).

(** [PackageManager.installDependencies]; pnpm's own writes
    ([node_modules], the lockfile) are outside the model. *)
Definition installDependencies (projectPath : string) : M unit :=
  env <- ask ;;
  if negb (pnpm_installed env) then
    throw "pnpm is not installed. Install it with: npm install -g pnpm"
  else match install_result env with
       | Exited 0 => ret tt
       | Exited c =>
           throw ("pnpm install exited with code " ++ Val.to_string (JNum (Fin c))
                  ++ ". Check the output above for details.")
       | SpawnError m => throw ("Failed to install dependencies: " ++ m)
       end.

Record WorkspaceConfig := {
  wc_projectName : string;
  wc_projectPath : string;
  wc_template : Template;
  wc_options : obj jsval
}.

Definition context_of (cfg : WorkspaceConfig) : GeneratorContext :=
  {| projectName := wc_projectName cfg;
     projectPath := wc_projectPath cfg;
     options := wc_options cfg |}.

(** [createDirectoryStructure] *)
Definition createDirectoryStructure (p : string) : M unit :=
  env <- ask ;;
  for_each ensureDirectory
    [p; resolve2 env p "programs"; resolve2 env p "tests"; resolve2 env p "app";
     resolve2 env p "migrations"; resolve2 env p "target"].

(** [generateFiles] *)
Definition generateFiles (files : list GeneratedFile) : M unit :=
  for_each (fun f => writeFile (path f) (content f)) files.

Definition text_lines (ls : list string) : string :=
  String.concat "" (map (fun l => l ++ Js.nl) ls).

Definition q (s : string) : string := Js.dq ++ s ++ Js.dq.

(** The [Anchor.toml] template literal of [generateAnchorConfig]. *)
Definition anchorToml (projectName : string) : string :=
  text_lines
    [ "[toolchain]"; "";
      "[features]"; "seeds = false"; "skip-lint = false"; "";
      "[programs.localnet]";
      Js.replace_hyphens projectName ++ " = " ++ q "Fg6PaFpoGXkYsidMpWTK6W2BeZ7FEfcYkg476zPFsLnS"; "";
      "[registry]"; "url = " ++ q "https://api.apr.dev"; "";
      "[provider]"; "cluster = " ++ q "Localnet"; "wallet = " ++ q "~/.config/solana/id.json"; "";
      "[scripts]"; "test = " ++ q "pnpm exec ts-node -r tsconfig-paths/register tests/**/*.ts" ].

(** [generateAnchorConfig] *)
Definition generateAnchorConfig (cfg : WorkspaceConfig) : M unit :=
  env <- ask ;;
  writeFile (resolve2 env (wc_projectPath cfg) "Anchor.toml") (anchorToml (wc_projectName cfg)).

(** The [packageJson] object of [generatePackageJson]. *)
Definition packageJson (projectName : string) (deps devDeps : Dependencies) : Json.json :=
  Json.JSObj
    [ ("name", Json.JSStr projectName);
      ("version", Json.JSStr "0.1.0");
      ("description", Json.JSStr "Anchor program generated with SolAnchorGen");
      ("scripts", Json.JSObj
          [ ("build", Json.JSStr "anchor build"); ("test", Json.JSStr "anchor test");
            ("deploy", Json.JSStr "anchor deploy"); ("test:unit", Json.JSStr "ts-node tests/**/*.ts") ]);
      ("dependencies", Json.of_deps deps);
      ("devDependencies", Json.of_deps devDeps);
      ("keywords", Json.JSArr [Json.JSStr "solana"; Json.JSStr "anchor"; Json.JSStr "blockchain"]);
      ("author", Json.JSStr "");
      ("license", Json.JSStr "MIT") ].

Definition packageJson_of (cfg : WorkspaceConfig) : Json.json :=
  let ctx := context_of cfg in
  let g := generator (wc_template cfg) in
  packageJson (wc_projectName cfg) (getDependencies g ctx) (getDevDependencies g ctx).

(** [generatePackageJson] *)
Definition generatePackageJson (cfg : WorkspaceConfig) : M unit :=
  env <- ask ;;
  writeFile (resolve2 env (wc_projectPath cfg) "package.json") (Json.stringify (packageJson_of cfg)).

(** The body of the [try] block of [WorkspaceGenerator.generate]. *)
Definition generate_steps (cfg : WorkspaceConfig) : M unit :=
  env <- ask ;;
  createDirectoryStructure (wc_projectPath cfg) ;;;
  let files := Tpl.generate (generator (wc_template cfg)) (cwd env) (context_of cfg) in
  generateFiles files ;;;
  generateAnchorConfig cfg ;;;
  generatePackageJson cfg ;;;
  installDependencies (wc_projectPath cfg).

(** [cleanupPartialGeneration]: errors are caught and only logged. *)
Definition cleanupPartialGeneration (p : string) : M unit :=
  catch_ (b <- pathExists p ;; if b then rmSync p else ret tt)
         (fun _ => ret tt).

(** [WorkspaceGenerator.generate] *)
Definition generate (cfg : WorkspaceConfig) : M unit :=
  catch_ (generate_steps cfg)
         (fun e => cleanupPartialGeneration (wc_projectPath cfg) ;;; throw e).

End Ws.

(** ** The [new] command ([commands/new.ts], [utils/validator.ts], and the
    [commander] registration in [index.ts]) *)
Module Cli.
Import Val Tpl Ws.

(** The options object [commander] passes to the [new] action:
    [--template] is required and [--token-decimals] has the default ['9'];
    option values arrive as strings. *)
Definition commander_new_options (template : string) (token_decimals : option string)
  : obj jsval :=
  [("template", JStr template);
   ("tokenDecimals", JStr (match token_decimals with Some s => s | None => "9" end))].

(** [Validator.validateTemplateName] *)
Definition validateTemplateName (name : string) (r : Registry) : bool + string :=
  if String.eqb name "" || String.eqb (Js.trim name) "" then inr "Template name cannot be empty"
  else match getTemplate r name with
       | None =>
           inr ("Template " ++ Js.dq ++ name ++ Js.dq ++ " not found. Available templates: "
                ++ String.concat ", " (map id (getAllTemplates r)))
       | Some _ => inl true
       end.

(** [extractTemplateOptions] *)
Definition extractTemplateOptions (commandOptions : obj jsval) (templateOptions : list TemplateOption)
  : obj jsval :=
  fold_left
    (fun result o =>
       let value := or (getv commandOptions (opt_name o)) (getv commandOptions (flag o)) in
       if is_undefined value then result
       else
         let value' := match type o with
                       | TNumber => JNum (Number value)
                       | TBoolean => JBool (truthy value)
                       | TString => value
                       end in
         set result (opt_name o) value')
    templateOptions [].

(** [Validator.validateOptionValue] *)
Definition validateOptionValue (value : jsval) (o : TemplateOption) : bool + string :=
  let n := Js.dq ++ opt_name o ++ Js.dq in
  let type_check : option string :=
    match type o, value with
    | _, JUndef | _, JNull => Some ("Value for option " ++ n ++ " is required")
    | TString, JStr s =>
        if String.eqb (Js.trim s) "" then Some ("Option " ++ n ++ " cannot be empty") else None
    | TString, _ => Some ("Option " ++ n ++ " must be a string")
    | TNumber, _ =>
        match Number value with NaN => Some ("Option " ++ n ++ " must be a valid number") | _ => None end
    | TBoolean, JBool _ => None
    | TBoolean, _ => Some ("Option " ++ n ++ " must be a boolean")
    end in
  match type_check with
  | Some m => inr m
  | None =>
      match validate o with
      | Some f => if f value then inl true else inr ("Invalid value for option " ++ n)
      | None => inl true
      end
  end.

Definition check (r : bool + string) : M unit :=
  match r with
  | inl true => ret tt
  | inl false => throw "false"
  | inr m => throw m
  end.

Definition validateProjectNameM (name : string) : M (bool + string) :=
  fun env d => (inl (Validator.validateProjectName (cwd env) d name), d).

(** The [try] block of [newCommand], up to the workspace configuration it
    hands to [WorkspaceGenerator.generate]. *)
Definition newCommand_prepare (projectName : string) (cmd : obj jsval) (r : Registry)
  : M WorkspaceConfig :=
  nv <- validateProjectNameM projectName ;;
  check nv ;;;
  let tid := match getv cmd "template" with JStr s => s | _ => "" end in
  check (validateTemplateName tid r) ;;;
  match getTemplate r tid with
  | None => throw ("Template " ++ Js.dq ++ tid ++ Js.dq ++ " not found")
  | Some t =>
      let templateOptions := extractTemplateOptions cmd (toptions t) in
      for_each (fun o =>
                  let v := getv templateOptions (opt_name o) in
                  if is_undefined v then ret tt else check (validateOptionValue v o))
               (toptions t) ;;;
      env <- ask ;;
      ret {| wc_projectName := projectName;
             wc_projectPath := Path.to_string (Path.resolve (cwd env) [projectName]);
             wc_template := t;
             wc_options := templateOptions |}
  end.

Inductive Exit := ExitOk | Exit1 (message : string).

(** [newCommand]: any throw ends in [process.exit(1)]. *)
Definition newCommand (projectName : string) (cmd : obj jsval) (r : Registry)
  (env : Env) (d : Fs.disk) : Exit * Fs.disk :=
  match (cfg <- newCommand_prepare projectName cmd r ;; Ws.generate cfg) env d with
  | (inl _, d') => (ExitOk, d')
  | (inr e, d') => (Exit1 e, d')
  end.

End Cli.

(** ** [Validator.validatePath] *)
Module PathValidator.

(** The character class of [/[<>:|?*]/], which also holds the double quote. *)
Definition invalid_char (c : ascii) : bool :=
  existsb (Ascii.eqb c) ["<"%char; ">"%char; ":"%char; "034"%char; "|"%char; "?"%char; "*"%char].

(** Its [test(s)]. *)
Fixpoint has_invalid_char (s : string) : bool :=
  match s with
  | EmptyString => false
  | String c r => invalid_char c || has_invalid_char r
  end.

(** [s.includes(t)] *)
Fixpoint includes (s t : string) : bool :=
  match s with
  | EmptyString => String.prefix t s
  | String _ r => String.prefix t s || includes r t
  end.

Definition validatePath (path : string) : bool + string :=
  if String.eqb path "" || String.eqb (Js.trim path) "" then inr "Path cannot be empty"
  else if has_invalid_char path then inr "Path contains invalid characters"
  else if includes path ".." then
    inr ("Path cannot contain " ++ Js.dq ++ ".." ++ Js.dq ++ " (parent directory references)")
  else inl true.

End PathValidator.

(** ** The rest of [TemplateRegistry] ([templates/registry.ts]) *)
Module RegistryOps.
Import Val Tpl.

(** [getTemplateOptions] *)
Definition getTemplateOptions (r : Registry) (i : string) : list TemplateOption :=
  match get r i with Some t => toptions t | None => [] end.

(** [getTemplateCount]: the size of the map. *)
Definition getTemplateCount (r : Registry) : nat := length r.

(** [clear] *)
Definition clear (r : Registry) : Registry := [].

End RegistryOps.

(** ** The rest of [FileSystemWriter] ([utils/fs-writer.ts]) *)
Module FsWriter.
Import Val Tpl Ws.

(** The ancestors that [mkdir(p, { recursive: false })] resolves before it
    creates [p]: each one must exist and be a directory. *)
Fixpoint parent_check (done_ : Path.path) (rest : list string) (d : Fs.disk) : option string :=
  match rest with
  | [] => None
  | s :: r =>
      let q := (done_ ++ [s])%list in
      match Fs.lookup d q with
      | None => Some "ENOENT: no such file or directory"
      | Some (Fs.File _) => Some "ENOTDIR: not a directory"
      | Some Fs.Dir => parent_check q r d
      end
  end.

(** [FileSystemWriter.createDirectory] *)
Definition createDirectory (s : string) : M unit :=
  fun env d =>
    let p := key env s in
    let wrap cause := "Failed to create directory at " ++ s ++ ": " ++ cause in
    if mkdir_fails env p then (inr (wrap "EIO: i/o error"), d)
    else match parent_check [] (removelast p) d with
         | Some cause => (inr (wrap cause), d)
         | None =>
             if Fs.exists_path d p then (inr (wrap "EEXIST: file already exists"), d)
             else (inl tt, set_entry d p Fs.Dir)
         end.

(** [copyFile(source, destination)] of [fs/promises]. *)
Definition copy_raw (src dst : string) : M unit :=
  fun env d =>
    match key env src with
    | [] => (inr "EISDIR: illegal operation on a directory", d)
    | p =>
        match Fs.lookup d p with
        | None => (inr "ENOENT: no such file or directory", d)
        | Some Fs.Dir => (inr "EISDIR: illegal operation on a directory", d)
        | Some (Fs.File c) => write_raw dst c env d
        end
    end.

(** [FileSystemWriter.copyFile] *)
Definition copyFile (source destination : string) : M unit :=
  catch_ (ensureDirectory (Dirname.dirname destination) ;;; copy_raw source destination)
         (fun e => throw ("Failed to copy file from " ++ source ++ " to " ++ destination ++ ": " ++ e)).

(** The loop of [writeFiles], threading [successCount] and [errors]. *)
Fixpoint write_loop (files : list GeneratedFile) (successCount : nat) (errors : list string)
  : M (nat * list string) :=
  match files with
  | [] => ret (successCount, errors)
  | f :: r =>
      acc <- catch_ (writeFile (path f) (content f) ;;; ret (S successCount, errors))
                    (fun e => ret (successCount, (errors ++ [(path f ++ ": " ++ e)%string])%list)) ;;
      write_loop r (fst acc) (snd acc)
  end.

(** [FileSystemWriter.writeFiles] *)
Definition writeFiles (files : list GeneratedFile) : M nat :=
  acc <- write_loop files 0 [] ;;
  match snd acc with
  | [] => ret (fst acc)
  | errors =>
      throw ("Failed to write " ++ Val.to_string (JNum (Fin (Z.of_nat (length errors))))
             ++ " file(s):" ++ Js.nl ++ String.concat Js.nl errors)
  end.

End FsWriter.

(** ** [ProgressReporter] (in [utils/fs-writer.ts])

    The reporter's fields are [spinner] (here the text of the running
    spinner) and [currentStep]. What the spinners print is a list of
    events; the console-only methods are left out. *)
Module Progress.

Inductive event :=
| Start (text : string)     (** [ora({ text }).start()] *)
| Stop                      (** [spinner.stop()] *)
| Succeed (text : string)   (** [spinner.succeed(text)] *)
| Fail (text : string).     (** [spinner.fail(text)] *)

Record state := { spinner : option string; currentStep : option string }.

Definition initial : state := {| spinner := None; currentStep := None |}.

(** [a || b] on an optional string. *)
Definition or_str (a : option string) (b : string) : string :=
  match a with
  | Some s => if String.eqb s "" then b else s
  | None => b
  end.

Definition startStep (message : string) (st : state) : state * list event :=
  ({| spinner := Some message; currentStep := Some message |},
   ((match spinner st with Some _ => [Stop] | None => [] end) ++ [Start message])%list).

Definition completeStep (message : option string) (st : state) : state * list event :=
  match spinner st with
  | Some _ => (initial, [Succeed (or_str message (or_str (currentStep st) "Done"))])
  | None => (st, [])
  end.

Definition failStep (error : string) (st : state) : state * list event :=
  match spinner st with
  | Some _ => (initial, [Fail error])
  | None => (st, [])
  end.

Definition updateStep (message : string) (st : state) : state * list event :=
  match spinner st with
  | Some _ => ({| spinner := Some message; currentStep := currentStep st |}, [])
  | None => (st, [])
  end.

Definition stopStep (st : state) : state * list event :=
  match spinner st with
  | Some _ => (initial, [Stop])
  | None => (st, [])
  end.

(** A sequence of method calls on one reporter. *)
Inductive op :=
| StartStep (message : string)
| CompleteStep (message : option string)
| FailStep (error : string)
| UpdateStep (message : string)
| StopStep.

Definition call (o : op) : state -> state * list event :=
  match o with
  | StartStep m => startStep m
  | CompleteStep m => completeStep m
  | FailStep e => failStep e
  | UpdateStep m => updateStep m
  | StopStep => stopStep
  end.

Fixpoint run (ops : list op) (st : state) : state * list event :=
  match ops with
  | [] => (st, [])
  | o :: r =>
      let (st1, e1) := call o st in
      let (st2, e2) := run r st1 in
      (st2, (e1 ++ e2)%list)
  end.

End Progress.

(** * Specifications that follow the words of the claims

    These are compared with the definitions above; they are not part of
    the program. *)

(** The pattern [^[a-zA-Z][a-zA-Z0-9_-]*$]. *)
Definition claimed_name_pattern (s : string) : bool :=
  match s with
  | EmptyString => false
  | String c r => Js.is_letter c && Js.all_chars Js.is_name_char r
  end.

(** The naming rules as the error taxonomy lists them: not empty, no bad
    characters, not a reserved word, no pre-existing path. *)
Definition spec_name_ok (cwd : Path.path) (d : Fs.disk) (name : string) : bool :=
  negb (String.eqb (Js.trim name) "")
  && Js.valid_name_pattern name
  && negb (Validator.includes Validator.reservedNames (Js.toLowerCase name))
  && negb (Fs.exists_path d (Path.resolve cwd [name])).

(** A path segment that [path.resolve] keeps as it is: not empty, not
    ["."] or [".."], and without [/]. [process.cwd()] is made of such
    segments. *)
Definition no_slash (c : ascii) : bool := negb (Ascii.eqb c "/"%char).

Definition plain_seg (s : string) : bool :=
  negb (String.eqb s "") && negb (String.eqb s ".") && negb (String.eqb s "..")
  && Js.all_chars no_slash s.

Definition plain_path (p : Path.path) : bool := forallb plain_seg p.

(** Concrete environments and configurations for the examples: a working
    directory, no injected mkdir or write failure, pnpm installed, and a
    throwing [rmSync] that has removed nothing. *)
Definition env_at (cwd : Path.path) (rm : bool) (inst : Ws.InstallResult) : Ws.Env :=
  {| Ws.cwd := cwd; Ws.mkdir_fails := fun _ => false; Ws.write_fails := fun _ => false;
     Ws.pnpm_installed := true; Ws.install_result := inst; Ws.rm_fails := rm;
     Ws.rm_removed := fun _ => false |}.

Definition vault_template : Tpl.Template :=
  nth 5 Templates.all_templates (Templates.mk "" "" "" [] Gen.VaultGenerator).

(** The configuration [newCommand] builds for a name in [cwd]. *)
Definition cfg_for (cwd : Path.path) (name : string) (t : Tpl.Template) (opts : Val.obj Val.jsval)
  : Ws.WorkspaceConfig :=
  {| Ws.wc_projectName := name;
     Ws.wc_projectPath := Path.to_string (Path.resolve cwd [name]);
     Ws.wc_template := t;
     Ws.wc_options := opts |}.

(** A client of the registry: [registerTemplate] called with each template
    in turn, a throw being caught and ignored. *)
Fixpoint register_seq (r : Tpl.Registry) (ts : list Tpl.Template) : Tpl.Registry :=
  match ts with
  | [] => r
  | t :: ts' => register_seq (snd (Tpl.registerTemplate r t)) ts'
  end.

(** An observer of the reporter's output: [Some a] when no spinner is
    started while another one runs and none is ended that does not run,
    [a] telling whether one runs at the end. *)
Fixpoint bracketed (active : bool) (evs : list Progress.event) : option bool :=
  match evs with
  | [] => Some active
  | Progress.Start _ :: r => if active then None else bracketed true r
  | _ :: r => if active then bracketed false r else None
  end.

(** The staking template of the default registry, the second one
    registered. *)
Definition staking_template : Tpl.Template :=
  nth 1 Templates.all_templates (Templates.mk "" "" "" [] Gen.StakingGenerator).

(** Registries whose keys are distinct, each the id of its template. *)
Definition reg_wf (r : Tpl.Registry) : Prop :=
  NoDup (map fst r) /\ Forall (fun kt => fst kt = Tpl.id (snd kt)) r.

(** What [extractTemplateOptions] may store under a key [k]: the value of
    an option of the list named [k], defined, and a number or a boolean
    when the option's type says so. *)
Definition typed_entry (opts : list Tpl.TemplateOption) (k : string) (v : Val.jsval) : Prop :=
  exists o, In o opts /\ Tpl.opt_name o = k /\ v <> Val.JUndef
    /\ (Tpl.type o = Tpl.TNumber -> exists n, v = Val.JNum n)
    /\ (Tpl.type o = Tpl.TBoolean -> exists b, v = Val.JBool b).

(** The disk after [writeFile] is attempted on each file in turn, whatever
    the earlier attempts gave. *)
Definition write_each (files : list Tpl.GeneratedFile) (env : Ws.Env) (d : Fs.disk) : Fs.disk :=
  fold_left (fun d f => snd (Ws.writeFile (Tpl.path f) (Tpl.content f) env d)) files d.

(** Whether the reporter has a running spinner. *)
Definition spinning (st : Progress.state) : bool :=
  match Progress.spinner st with Some _ => true | None => false end.

(** The character classes [[a-zA-Z0-9_]] (Rust and TypeScript identifier
    characters) and [[a-zA-Z0-9]]. *)
Definition ident_char (c : ascii) : bool := Js.is_letter c || Js.is_digit c || Ascii.eqb c "_"%char.

Definition alnum (c : ascii) : bool := Js.is_letter c || Js.is_digit c.

(** * Lemmas *)

Lemma letter_not_ws : forall c, Js.is_letter c = true -> Js.is_ws c = false.
Proof. intros c; destruct c as [[] [] [] [] [] [] [] []]; vm_compute; congruence. Qed.

Lemma letter_name_char : forall c, Js.is_letter c = true -> Js.is_name_char c = true.
Proof. intros c H; unfold Js.is_name_char; rewrite H; reflexivity. Qed.

Lemma pattern_split : forall s,
  Js.valid_name_pattern s && Js.starts_with_letter s = claimed_name_pattern s.
Proof.
  intros [|c r]; [reflexivity|]; simpl.
  destruct (Js.is_letter c) eqn:E.
  - rewrite (letter_name_char c E); simpl; rewrite andb_true_r; reflexivity.
  - rewrite !andb_false_r; reflexivity.
Qed.

Lemma trim_start_empty : forall t,
  Js.trim_start t = EmptyString -> forallb Js.is_ws (list_ascii_of_string t) = true.
Proof.
  induction t as [|c r IH]; simpl; [reflexivity|].
  destruct (Js.is_ws c) eqn:E; simpl; [exact IH | discriminate].
Qed.

Lemma string_of_list_ascii_nil : forall l, string_of_list_ascii l = EmptyString -> l = [].
Proof. intros [|a l]; simpl; congruence. Qed.

Lemma trim_letter_nonempty : forall c r,
  Js.is_letter c = true -> Js.trim (String c r) <> EmptyString.
Proof.
  intros c r Hl Ht. unfold Js.trim in Ht.
  simpl Js.trim_start in Ht at 2. rewrite (letter_not_ws c Hl) in Ht.
  apply string_of_list_ascii_nil in Ht.
  destruct (list_ascii_of_string _) eqn:E in Ht;
    [| apply (f_equal (@length ascii)) in Ht; rewrite length_rev in Ht; simpl in Ht; discriminate].
  assert (H0 : Js.trim_start (string_of_list_ascii (rev (list_ascii_of_string (String c r)))) = EmptyString).
  { destruct (Js.trim_start _); [reflexivity | discriminate]. }
  apply trim_start_empty in H0. rewrite list_ascii_of_string_of_list_ascii in H0.
  rewrite forallb_forall in H0.
  assert (Hin : In c (rev (list_ascii_of_string (String c r)))).
  { apply in_rev; rewrite rev_involutive; left; reflexivity. }
  specialize (H0 c Hin). rewrite (letter_not_ws c Hl) in H0. discriminate.
Qed.

Lemma validateProjectName_ok_iff : forall cwd d name,
  Validator.validateProjectName cwd d name = inl true <->
  (claimed_name_pattern name = true /\ String.length name <= 50
   /\ Validator.includes Validator.reservedNames (Js.toLowerCase name) = false
   /\ Fs.exists_path d (Path.resolve cwd [name]) = false).
Proof.
  intros cwd d name. rewrite <- pattern_split. unfold Validator.validateProjectName.
  split.
  - destruct (String.eqb name "" || String.eqb (Js.trim name) "") eqn:E0; [discriminate|].
    destruct (Js.valid_name_pattern name) eqn:E1; [|discriminate].
    destruct (Js.starts_with_letter name) eqn:E2; [|discriminate].
    destruct (Nat.ltb 50 (String.length name)) eqn:E3; [discriminate|].
    destruct (Validator.includes _ _) eqn:E4; [discriminate|].
    destruct (Fs.exists_path _ _) eqn:E5; [discriminate|].
    intros _. apply Nat.ltb_ge in E3. repeat split; auto.
  - intros [Hp [Hl [Hr He]]].
    apply andb_prop in Hp as [H1 H2].
    assert (E0 : (String.eqb name "" || String.eqb (Js.trim name) "") = false).
    { destruct name as [|c r]; [discriminate|].
      simpl in H2. apply orb_false_intro; [reflexivity|].
      apply String.eqb_neq, trim_letter_nonempty, H2. }
    rewrite E0, H1, H2, Hr, He. simpl.
    apply Nat.ltb_ge in Hl. rewrite Hl. reflexivity.
Qed.

Lemma validateProjectName_total : forall cwd d name,
  Validator.validateProjectName cwd d name = inl true
  \/ exists msg, Validator.validateProjectName cwd d name = inr msg.
Proof.
  intros. unfold Validator.validateProjectName.
  repeat match goal with |- context [if ?b then _ else _] => destruct b end; eauto.
Qed.

(** ** Paths *)
Section Paths.

Lemma split_slash_no_slash : forall s,
  Js.all_chars no_slash s = true -> Js.split_slash s = [s].
Proof.
  induction s as [|c r IH]; simpl; [reflexivity|].
  intros H. apply andb_prop in H as [Hc Hr]. unfold no_slash in Hc.
  destruct (Ascii.eqb c "/"%char); [discriminate|]. rewrite IH by exact Hr. reflexivity.
Qed.

Lemma split_slash_app : forall a b t,
  Js.all_chars no_slash a = true -> Js.split_slash b = EmptyString :: t ->
  Js.split_slash (a ++ b) = a :: t.
Proof.
  induction a as [|c r IH]; simpl; intros b t H Hb; [exact Hb|].
  apply andb_prop in H as [Hc Hr]. unfold no_slash in Hc.
  destruct (Ascii.eqb c "/"%char); [discriminate|]. rewrite (IH b t Hr Hb). reflexivity.
Qed.

Lemma plain_seg_parts : forall s, plain_seg s = true ->
  String.eqb s "" = false /\ String.eqb s "." = false /\ String.eqb s ".." = false
  /\ Js.all_chars no_slash s = true.
Proof.
  intros s H. unfold plain_seg in H.
  repeat match type of H with
         | _ && _ = true => apply andb_prop in H as [H ?]
         end.
  apply negb_true_iff in H.
  repeat match goal with H : negb _ = true |- _ => apply negb_true_iff in H end.
  auto.
Qed.

Lemma split_slash_to_string : forall p, p <> [] -> Forall (fun s => plain_seg s = true) p ->
  Js.split_slash (Path.to_string p) = EmptyString :: p.
Proof.
  induction p as [|s p IH]; intros Hne Hp; [contradiction|].
  inversion Hp as [|? ? Hs Hp']; subst.
  destruct (plain_seg_parts s Hs) as [_ [_ [_ Hsl]]].
  destruct p as [|s' p'].
  - simpl. rewrite split_slash_no_slash by exact Hsl. reflexivity.
  - change (Path.to_string (s :: s' :: p'))
      with (String "/"%char (s ++ Path.to_string (s' :: p'))).
    simpl Js.split_slash at 1.
    rewrite (split_slash_app s _ (s' :: p') Hsl); [reflexivity|].
    apply IH; [discriminate | exact Hp'].
Qed.

Lemma norm_seg_plain : forall acc s, plain_seg s = true -> Path.norm_seg acc s = (acc ++ [s])%list.
Proof.
  intros acc s H. destruct (plain_seg_parts s H) as [H1 [H2 [H3 _]]].
  unfold Path.norm_seg. rewrite H1, H2, H3. reflexivity.
Qed.

Lemma fold_norm_plain : forall segs acc, Forall (fun s => plain_seg s = true) segs ->
  fold_left Path.norm_seg segs acc = (acc ++ segs)%list.
Proof.
  induction segs as [|s segs IH]; intros acc H; simpl; [rewrite app_nil_r; reflexivity|].
  inversion H; subst. rewrite norm_seg_plain by assumption. rewrite IH by assumption.
  rewrite <- app_assoc. reflexivity.
Qed.

Lemma resolve_one_to_string : forall acc p, Forall (fun s => plain_seg s = true) p ->
  Path.resolve_one acc (Path.to_string p) = p.
Proof.
  intros acc p H. destruct p as [|s p'].
  - reflexivity.
  - unfold Path.resolve_one.
    rewrite split_slash_to_string by (discriminate || exact H).
    destruct p'; simpl;
      [rewrite norm_seg_plain by (inversion H; assumption); reflexivity
      | change (fold_left Path.norm_seg (s :: s0 :: p') (Path.norm_seg [] "") = s :: s0 :: p');
        rewrite fold_norm_plain by exact H; reflexivity].
Qed.

Lemma resolve_one_plain : forall acc s, plain_seg s = true ->
  Path.resolve_one acc s = (acc ++ [s])%list.
Proof.
  intros acc s H. pose proof (plain_seg_parts s H) as [H1 [_ [_ Hsl]]].
  unfold Path.resolve_one. rewrite split_slash_no_slash by exact Hsl.
  destruct s as [|c r]; [discriminate|].
  simpl in Hsl. apply andb_prop in Hsl as [Hc _]. unfold no_slash in Hc.
  destruct (Ascii.eqb c "/"%char); [discriminate|].
  simpl. apply norm_seg_plain. exact H.
Qed.

Lemma fold_resolve_plain : forall args acc, Forall (fun s => plain_seg s = true) args ->
  fold_left Path.resolve_one args acc = (acc ++ args)%list.
Proof.
  induction args as [|a args IH]; intros acc H; simpl; [rewrite app_nil_r; reflexivity|].
  inversion H; subst. rewrite resolve_one_plain by assumption. rewrite IH by assumption.
  rewrite <- app_assoc. reflexivity.
Qed.

Lemma resolve_to_string_cons : forall cwd p rel,
  Forall (fun s => plain_seg s = true) p -> Forall (fun s => plain_seg s = true) rel ->
  Path.resolve cwd (Path.to_string p :: rel) = (p ++ rel)%list.
Proof.
  intros cwd p rel Hp Hr. unfold Path.resolve. simpl.
  rewrite resolve_one_to_string by exact Hp. apply fold_resolve_plain, Hr.
Qed.

Lemma resolve_plain : forall cwd args, Forall (fun s => plain_seg s = true) args ->
  Path.resolve cwd args = (cwd ++ args)%list.
Proof. intros. apply fold_resolve_plain. assumption. Qed.

Lemma key_to_string : forall env p, Forall (fun s => plain_seg s = true) p ->
  Ws.key env (Path.to_string p) = p.
Proof. intros env p H. apply resolve_one_to_string, H. Qed.

Lemma name_char_no_slash : forall c, Js.is_name_char c = true -> no_slash c = true.
Proof. intros c; destruct c as [[] [] [] [] [] [] [] []]; vm_compute; congruence. Qed.

Lemma letter_not_dot : forall c, Js.is_letter c = true -> Ascii.eqb c "."%char = false.
Proof. intros c; destruct c as [[] [] [] [] [] [] [] []]; vm_compute; congruence. Qed.

Lemma all_chars_mono : forall (f g : ascii -> bool) s,
  (forall c, f c = true -> g c = true) -> Js.all_chars f s = true -> Js.all_chars g s = true.
Proof.
  intros f g s Hfg. induction s as [|c r IH]; simpl; [reflexivity|].
  intros H. apply andb_prop in H as [H1 H2]. rewrite (Hfg c H1), (IH H2). reflexivity.
Qed.

Lemma all_chars_app : forall f a b,
  Js.all_chars f (a ++ b) = Js.all_chars f a && Js.all_chars f b.
Proof.
  intros f a b. induction a as [|c r IH]; simpl; [reflexivity|].
  rewrite IH, andb_assoc. reflexivity.
Qed.

Lemma letter_plain : forall c r, Js.is_letter c = true -> Js.all_chars no_slash r = true ->
  plain_seg (String c r) = true.
Proof.
  intros c r Hl Hr. unfold plain_seg. simpl.
  rewrite (letter_not_dot c Hl). simpl.
  rewrite (name_char_no_slash c (letter_name_char c Hl)), Hr. reflexivity.
Qed.

Lemma valid_name_plain : forall name, claimed_name_pattern name = true ->
  plain_seg name = true /\ forall sfx, Js.all_chars no_slash sfx = true -> plain_seg (name ++ sfx) = true.
Proof.
  intros [|c r] H; [discriminate|]. simpl in H. apply andb_prop in H as [Hl Hr].
  assert (Hr' : Js.all_chars no_slash r = true) by exact (all_chars_mono _ _ r name_char_no_slash Hr).
  split; [apply letter_plain; assumption|].
  intros sfx Hs. simpl. apply letter_plain; [assumption|]. rewrite all_chars_app, Hr', Hs. reflexivity.
Qed.

Lemma Forall_app_plain : forall a b, Forall (fun s => plain_seg s = true) a ->
  Forall (fun s => plain_seg s = true) b -> Forall (fun s => plain_seg s = true) (a ++ b)%list.
Proof. intros. apply Forall_app. split; assumption. Qed.

Lemma Forall_removelast : forall (P : string -> Prop) l, Forall P l -> Forall P (removelast l).
Proof.
  intros P l H. induction l as [|a l IH]; simpl; [constructor|].
  inversion H; subst. destruct l; [constructor|]. constructor; auto.
Qed.

Lemma split_slash_segments : forall s,
  Forall (fun x => Js.all_chars no_slash x = true) (Js.split_slash s).
Proof.
  induction s as [|c r IH]; simpl; [repeat constructor|].
  destruct (Ascii.eqb c "/"%char) eqn:Ec; [constructor; [reflexivity | exact IH]|].
  destruct (Js.split_slash r) as [|h t] eqn:E.
  - constructor; [|constructor]. simpl. unfold no_slash. rewrite Ec. reflexivity.
  - inversion IH; subst. constructor; [|assumption].
    simpl. unfold no_slash. rewrite Ec. assumption.
Qed.

Lemma norm_seg_plain_out : forall acc seg,
  Forall (fun s => plain_seg s = true) acc -> Js.all_chars no_slash seg = true ->
  Forall (fun s => plain_seg s = true) (Path.norm_seg acc seg).
Proof.
  intros acc seg Ha Hs. unfold Path.norm_seg.
  destruct (String.eqb seg "") eqn:E1; [exact Ha|].
  destruct (String.eqb seg ".") eqn:E2; [exact Ha|].
  destruct (String.eqb seg "..") eqn:E3; [apply Forall_removelast, Ha|].
  apply Forall_app. split; [exact Ha|]. constructor; [|constructor].
  unfold plain_seg. rewrite E1, E2, E3, Hs. reflexivity.
Qed.

Lemma fold_norm_plain_out : forall segs b,
  Forall (fun x => Js.all_chars no_slash x = true) segs ->
  Forall (fun s => plain_seg s = true) b ->
  Forall (fun s => plain_seg s = true) (fold_left Path.norm_seg segs b).
Proof.
  induction segs as [|x l IH]; intros b Hs Hb; simpl; [exact Hb|].
  inversion Hs; subst. apply IH; [assumption|]. apply norm_seg_plain_out; assumption.
Qed.

Lemma resolve_plain_out : forall cwd args, Forall (fun s => plain_seg s = true) cwd ->
  Forall (fun s => plain_seg s = true) (Path.resolve cwd args).
Proof.
  intros cwd args. unfold Path.resolve. revert cwd.
  induction args as [|a args IH]; intros cwd H; simpl; [exact H|].
  apply IH. unfold Path.resolve_one. apply fold_norm_plain_out; [apply split_slash_segments|].
  destruct a; [exact H|]. destruct (Ascii.eqb _ _); [constructor | exact H].
Qed.

End Paths.

(** ** The disk under the writer's operations *)
Section Disk.

Lemma path_eqb_eq : forall p q, Fs.path_eqb p q = true <-> p = q.
Proof.
  induction p as [|a p IH]; intros [|b q]; simpl; split; intros H; try discriminate; auto.
  - apply andb_prop in H as [H1 H2]. apply String.eqb_eq in H1. apply IH in H2. subst; reflexivity.
  - injection H as <- <-. rewrite String.eqb_refl. apply IH. reflexivity.
Qed.

Lemma path_eqb_refl : forall p, Fs.path_eqb p p = true.
Proof. intros p. apply path_eqb_eq. reflexivity. Qed.

Lemma lookup_filter_other : forall d p k, k <> p ->
  Fs.lookup (filter (fun pe => negb (Fs.path_eqb p (fst pe))) d) k = Fs.lookup d k.
Proof.
  intros d p k Hk. induction d as [|[q e] d IH]; simpl; [reflexivity|].
  destruct (Fs.path_eqb p q) eqn:Epq; simpl.
  - apply path_eqb_eq in Epq. subst q.
    destruct (Fs.path_eqb k p) eqn:Ekp; [apply path_eqb_eq in Ekp; contradiction | exact IH].
  - destruct (Fs.path_eqb k q); [reflexivity | exact IH].
Qed.

Lemma lookup_set_same : forall d p e, Fs.lookup (Ws.set_entry d p e) p = Some e.
Proof. intros. simpl. rewrite path_eqb_refl. reflexivity. Qed.

Lemma lookup_set_other : forall d p e k, k <> p ->
  Fs.lookup (Ws.set_entry d p e) k = Fs.lookup d k.
Proof.
  intros d p e k Hk. simpl.
  destruct (Fs.path_eqb k p) eqn:E; [apply path_eqb_eq in E; contradiction|].
  apply lookup_filter_other, Hk.
Qed.

(** [mkdir] never changes an existing entry. *)
Lemma mkdir_walk_stable : forall rest done_ d r d' k v,
  Ws.mkdir_walk done_ rest d = (r, d') -> Fs.lookup d k = Some v -> Fs.lookup d' k = Some v.
Proof.
  induction rest as [|s rest IH]; intros done_ d r d' k v H Hk; simpl in H.
  - injection H as _ <-. exact Hk.
  - destruct (Fs.lookup d (done_ ++ [s])%list) as [[|c]|] eqn:E.
    + eapply IH; eassumption.
    + injection H as _ <-. exact Hk.
    + eapply IH; [eassumption|]. rewrite lookup_set_other; [exact Hk|].
      intros ->. congruence.
Qed.

(** A successful [mkdir] leaves a directory at the path. *)
Lemma mkdir_walk_creates : forall rest done_ d d',
  Ws.mkdir_walk done_ rest d = (None, d') -> rest <> [] ->
  Fs.lookup d' (done_ ++ rest)%list = Some Fs.Dir.
Proof.
  induction rest as [|s rest IH]; intros done_ d d' H Hne; [contradiction|]. simpl in H.
  replace (done_ ++ s :: rest)%list with ((done_ ++ [s]) ++ rest)%list
    by (rewrite <- app_assoc; reflexivity).
  destruct rest as [|s' rest'].
  - rewrite app_nil_r. simpl in H.
    destruct (Fs.lookup d (done_ ++ [s])%list) as [[|c]|] eqn:E;
      [injection H as <-; exact E | discriminate | injection H as <-; apply lookup_set_same].
  - destruct (Fs.lookup d (done_ ++ [s])%list) as [[|c]|] eqn:E.
    + apply (IH _ d); [exact H | discriminate].
    + discriminate.
    + apply (IH _ _ _ H). discriminate.
Qed.

Lemma ensureDirectory_stable : forall s env d r d' k v,
  Ws.ensureDirectory s env d = (r, d') -> Fs.lookup d k = Some v -> Fs.lookup d' k = Some v.
Proof.
  intros s env d r d' k v H Hk. unfold Ws.ensureDirectory in H.
  destruct (Ws.mkdir_fails env (Ws.key env s)); [injection H as _ <-; exact Hk|].
  destruct (Ws.mkdir_walk [] (Ws.key env s) d) as [[c|] d1] eqn:E; injection H as _ <-;
    eapply mkdir_walk_stable; eassumption.
Qed.

Lemma ensureDirectory_creates : forall s env d d',
  Ws.ensureDirectory s env d = (inl tt, d') -> Ws.key env s <> [] ->
  Fs.lookup d' (Ws.key env s) = Some Fs.Dir.
Proof.
  intros s env d d' H Hne. unfold Ws.ensureDirectory in H.
  destruct (Ws.mkdir_fails env (Ws.key env s)); [discriminate|].
  destruct (Ws.mkdir_walk [] (Ws.key env s) d) as [[c|] d1] eqn:E; [discriminate|].
  injection H as <-. apply (mkdir_walk_creates _ [] d); assumption.
Qed.

Lemma write_raw_stable : forall s c env d r d' k v,
  Ws.write_raw s c env d = (r, d') -> k <> Ws.key env s ->
  Fs.lookup d k = Some v -> Fs.lookup d' k = Some v.
Proof.
  intros s c env d r d' k v H Hne Hk. unfold Ws.write_raw in H.
  destruct (Fs.lookup d (Ws.key env s)) as [[|c0]|];
    [injection H as _ <-; exact Hk| |];
    (destruct (Ws.write_fails env (Ws.key env s)); injection H as _ <-;
       [exact Hk | rewrite lookup_set_other; assumption]).
Qed.

Lemma write_raw_keeps : forall s c env d r d' k,
  Ws.write_raw s c env d = (r, d') -> Fs.lookup d k <> None -> Fs.lookup d' k <> None.
Proof.
  intros s c env d r d' k H Hk.
  destruct (list_eq_dec String.string_dec k (Ws.key env s)) as [->|Hne].
  - unfold Ws.write_raw in H.
    destruct (Fs.lookup d (Ws.key env s)) as [[|c0]|] eqn:E;
      [injection H as _ <-; rewrite E; discriminate| |];
      (destruct (Ws.write_fails env (Ws.key env s)); injection H as _ <-;
         [rewrite E; assumption | rewrite lookup_set_same; discriminate]).
  - destruct (Fs.lookup d k) as [v|] eqn:E; [|contradiction].
    rewrite (write_raw_stable s c env d r d' k v H Hne E). discriminate.
Qed.

Lemma write_raw_ok : forall s c env d d',
  Ws.write_raw s c env d = (inl tt, d') -> Fs.lookup d' (Ws.key env s) = Some (Fs.File c).
Proof.
  intros s c env d d' H. unfold Ws.write_raw in H.
  destruct (Fs.lookup d (Ws.key env s)) as [[|c0]|]; [discriminate| |];
    (destruct (Ws.write_fails env (Ws.key env s)); [discriminate|]);
    injection H as <-; apply lookup_set_same.
Qed.

Lemma writeFile_stable : forall s c env d r d' k v,
  Ws.writeFile s c env d = (r, d') -> k <> Ws.key env s ->
  Fs.lookup d k = Some v -> Fs.lookup d' k = Some v.
Proof.
  intros s c env d r d' k v H Hne Hk.
  unfold Ws.writeFile, Ws.catch_, Ws.bind, Ws.throw in H.
  destruct (Ws.ensureDirectory (Dirname.dirname s) env d) as [[u|e] d1] eqn:E1.
  - pose proof (ensureDirectory_stable _ _ _ _ _ _ _ E1 Hk) as Hk1.
    destruct (Ws.write_raw s c env d1) as [[u'|e'] d2] eqn:E2;
      injection H as _ <-; eapply write_raw_stable; eassumption.
  - injection H as _ <-. eapply ensureDirectory_stable; eassumption.
Qed.

Lemma writeFile_keeps : forall s c env d r d' k,
  Ws.writeFile s c env d = (r, d') -> Fs.lookup d k <> None -> Fs.lookup d' k <> None.
Proof.
  intros s c env d r d' k H Hk.
  unfold Ws.writeFile, Ws.catch_, Ws.bind, Ws.throw in H.
  destruct (Fs.lookup d k) as [v|] eqn:Ek; [|contradiction].
  destruct (Ws.ensureDirectory (Dirname.dirname s) env d) as [[u|e] d1] eqn:E1.
  - pose proof (ensureDirectory_stable _ _ _ _ _ _ _ E1 Ek) as Hk1.
    destruct (Ws.write_raw s c env d1) as [[u'|e'] d2] eqn:E2;
      injection H as _ <-; apply (write_raw_keeps s c env d1 _ d2 k E2); rewrite Hk1; discriminate.
  - injection H as _ <-. rewrite (ensureDirectory_stable _ _ _ _ _ _ _ E1 Ek). discriminate.
Qed.

Lemma writeFile_ok : forall s c env d d',
  Ws.writeFile s c env d = (inl tt, d') -> Fs.lookup d' (Ws.key env s) = Some (Fs.File c).
Proof.
  intros s c env d d' H.
  unfold Ws.writeFile, Ws.catch_, Ws.bind, Ws.throw in H.
  destruct (Ws.ensureDirectory (Dirname.dirname s) env d) as [[u|e] d1] eqn:E1; [|discriminate].
  destruct (Ws.write_raw s c env d1) as [[[]|e'] d2] eqn:E2; [|discriminate].
  injection H as <-. eapply write_raw_ok; eassumption.
Qed.

Lemma bind_inl : forall A B (m : Ws.M A) (k : A -> Ws.M B) env d b d',
  Ws.bind m k env d = (inl b, d') ->
  exists a d1, m env d = (inl a, d1) /\ k a env d1 = (inl b, d').
Proof.
  intros A B m k env d b d' H. unfold Ws.bind in H.
  destruct (m env d) as [[a|e] d1]; [eauto | discriminate].
Qed.

Lemma for_each_stable : forall A (f : A -> Ws.M unit) l env d r d' k v,
  (forall x d0 r0 d0' v0, In x l -> Fs.lookup d0 k = Some v0 -> f x env d0 = (r0, d0') ->
     Fs.lookup d0' k = Some v0) ->
  Ws.for_each f l env d = (r, d') -> Fs.lookup d k = Some v -> Fs.lookup d' k = Some v.
Proof.
  intros A f l env. induction l as [|x l IH]; intros d r d' k v Hf H Hk; simpl in H.
  - injection H as _ <-. exact Hk.
  - unfold Ws.bind in H. destruct (f x env d) as [[u|e] d1] eqn:E.
    + eapply IH; [| exact H |].
      * intros; eapply Hf; eauto. right; assumption.
      * eapply Hf; eauto. left; reflexivity.
    + injection H as _ <-. eapply Hf; eauto. left; reflexivity.
Qed.

Lemma for_each_keeps : forall A (f : A -> Ws.M unit) l env d r d' k,
  (forall x d0 r0 d0', Fs.lookup d0 k <> None -> f x env d0 = (r0, d0') -> Fs.lookup d0' k <> None) ->
  Ws.for_each f l env d = (r, d') -> Fs.lookup d k <> None -> Fs.lookup d' k <> None.
Proof.
  intros A f l env. induction l as [|x l IH]; intros d r d' k Hf H Hk; simpl in H.
  - injection H as _ <-. exact Hk.
  - unfold Ws.bind in H. destruct (f x env d) as [[u|e] d1] eqn:E.
    + eapply IH; [exact Hf | exact H | eapply Hf; eauto].
    + injection H as _ <-. eapply Hf; eauto.
Qed.

Lemma for_each_cons_inl : forall A (f : A -> Ws.M unit) x l env d u d',
  Ws.for_each f (x :: l) env d = (inl u, d') ->
  exists d1, f x env d = (inl tt, d1) /\ Ws.for_each f l env d1 = (inl u, d').
Proof.
  intros A f x l env d u d' H. simpl in H. unfold Ws.bind in H.
  destruct (f x env d) as [[[]|e] d1]; [eauto | discriminate].
Qed.

Lemma installDependencies_disk : forall p env d r d',
  Ws.installDependencies p env d = (r, d') -> d' = d.
Proof.
  intros p env d r d' H. unfold Ws.installDependencies, Ws.bind, Ws.ask in H.
  destruct (negb (Ws.pnpm_installed env)); [injection H as _ <-; reflexivity|].
  destruct (Ws.install_result env) as [[| |]|];
    unfold Ws.ret, Ws.throw in H; injection H as _ <-; reflexivity.
Qed.

End Disk.

(** ** The workspace pipeline *)
Section Pipeline.

Lemma resolve2_key : forall env pp x,
  Forall (fun s => plain_seg s = true) (Ws.cwd env) -> plain_seg x = true ->
  Ws.key env (Ws.resolve2 env pp x) = (Path.resolve (Ws.cwd env) [pp] ++ [x])%list.
Proof.
  intros env pp x Hc Hx. unfold Ws.resolve2.
  rewrite key_to_string by (apply resolve_plain_out; exact Hc).
  unfold Path.resolve. simpl. apply resolve_one_plain, Hx.
Qed.

Lemma exists_path_of_lookup : forall d p, Fs.lookup d p <> None -> Fs.exists_path d p = true.
Proof.
  intros d [|a p] H; [reflexivity|]. unfold Fs.exists_path.
  destruct (Fs.lookup d (a :: p)); [reflexivity | contradiction].
Qed.

(** What a run of the [try] block that completes leaves on the disk: the
    destination, [Anchor.toml] and [package.json] at the destination root. *)
Lemma generate_steps_ok : forall cfg env d d',
  Forall (fun s => plain_seg s = true) (Ws.cwd env) ->
  Ws.generate_steps cfg env d = (inl tt, d') ->
  Fs.exists_path d' (Path.resolve (Ws.cwd env) [Ws.wc_projectPath cfg]) = true
  /\ Fs.lookup d' (Path.resolve (Ws.cwd env) [Ws.wc_projectPath cfg] ++ ["Anchor.toml"])%list
     = Some (Fs.File (Ws.anchorToml (Ws.wc_projectName cfg)))
  /\ Fs.lookup d' (Path.resolve (Ws.cwd env) [Ws.wc_projectPath cfg] ++ ["package.json"])%list
     = Some (Fs.File (Json.stringify (Ws.packageJson_of cfg))).
Proof.
  intros cfg env d d' Hc H.
  unfold Ws.generate_steps in H.
  apply bind_inl in H as (env0 & d0 & Hask & H). injection Hask as <- <-.
  apply bind_inl in H as (u1 & d1 & Hdirs & H).
  apply bind_inl in H as (u2 & d2 & Hfiles & H).
  apply bind_inl in H as (u3 & d3 & Hanchor & H).
  apply bind_inl in H as (u4 & d4 & Hpkg & Hinst).
  apply installDependencies_disk in Hinst. subst d'.
  unfold Ws.generateAnchorConfig, Ws.bind, Ws.ask in Hanchor.
  unfold Ws.generatePackageJson, Ws.bind, Ws.ask in Hpkg.
  destruct u3, u4.
  assert (HA := writeFile_ok _ _ _ _ _ Hanchor).
  assert (HP := writeFile_ok _ _ _ _ _ Hpkg).
  rewrite resolve2_key in HA, HP by (assumption || reflexivity).
  assert (HKP : Ws.key env (Ws.wc_projectPath cfg) = Path.resolve (Ws.cwd env) [Ws.wc_projectPath cfg])
    by reflexivity.
  remember (Path.resolve (Ws.cwd env) [Ws.wc_projectPath cfg]) as P eqn:EP0.
  split; [|split; [|exact HP]].
  - (* the destination directory *)
    assert (Hex : P <> [] -> Fs.lookup d4 P <> None); [intros Hne|].
    2:{ destruct P; [reflexivity|]. apply exists_path_of_lookup, Hex. discriminate. }
    eapply writeFile_keeps; [exact Hpkg|].
    eapply writeFile_keeps; [exact Hanchor|].
    eapply for_each_keeps; [| exact Hfiles |].
    { intros f d0 r0 d0' Hk Hw. cbv beta in Hw. eapply writeFile_keeps; [exact Hw | exact Hk]. }
    unfold Ws.createDirectoryStructure in Hdirs.
    apply bind_inl in Hdirs as (env1 & d0 & Hask & Hdirs). injection Hask as <- <-.
    apply for_each_cons_inl in Hdirs as (d1' & E0 & Hdirs).
    assert (Hd : Fs.lookup d1' P = Some Fs.Dir).
    { rewrite <- HKP. apply (ensureDirectory_creates _ _ d); [exact E0|]. rewrite HKP. exact Hne. }
    eapply for_each_keeps; [| exact Hdirs | rewrite Hd; discriminate].
    intros x d0 r0 d0' Hk Hw. destruct (Fs.lookup d0 P) as [v|] eqn:Ev; [|contradiction].
    rewrite (ensureDirectory_stable _ _ _ _ _ _ _ Hw Ev). discriminate.
  - eapply writeFile_stable; [exact Hpkg | | exact HA].
    rewrite resolve2_key by (assumption || reflexivity). rewrite <- EP0.
    intros Heq. apply app_inv_head in Heq. discriminate.
Qed.

Lemma is_prefix_refl : forall p, Ws.is_prefix p p = true.
Proof. induction p as [|a p IH]; simpl; [reflexivity|]. rewrite String.eqb_refl. exact IH. Qed.

(** After [rmSync] succeeds nothing is left at the removed path. *)
Lemma lookup_after_rm : forall d k,
  Fs.lookup (filter (fun pe => negb (Ws.is_prefix k (fst pe))) d) k = None.
Proof.
  intros d k. induction d as [|[q e] d IH]; simpl; [reflexivity|].
  destruct (Ws.is_prefix k q) eqn:E; simpl; [exact IH|].
  destruct (Fs.path_eqb k q) eqn:Eq; [|exact IH].
  apply path_eqb_eq in Eq. subst q. rewrite is_prefix_refl in E. discriminate.
Qed.

(** A filter on paths keeps or drops the entry at a path as a whole. *)
Lemma lookup_filter_path : forall (P : Path.path -> bool) d q,
  Fs.lookup (filter (fun pe => P (fst pe)) d) q = if P q then Fs.lookup d q else None.
Proof.
  intros P d q. induction d as [|[p e] d IH]; simpl; [destruct (P q); reflexivity|].
  destruct (Fs.path_eqb q p) eqn:E.
  - apply path_eqb_eq in E. subst p. destruct (P q); simpl; [rewrite path_eqb_refl; reflexivity | exact IH].
  - destruct (P p); simpl; [rewrite E|]; exact IH.
Qed.

(** After a throwing [rmSync] every entry is as before, except some that
    lie strictly below the removed path and are gone. *)
Lemma lookup_after_failed_rm : forall (R : Path.path -> bool) d k q,
  let d' := filter (fun pe => negb (Ws.is_prefix k (fst pe) && negb (Fs.path_eqb k (fst pe))
                                    && R (fst pe))) d in
  Fs.lookup d' q = Fs.lookup d q
  \/ (Ws.is_prefix k q = true /\ q <> k /\ Fs.lookup d' q = None).
Proof.
  intros R d k q d'. unfold d'.
  rewrite (lookup_filter_path (fun p => negb (Ws.is_prefix k p && negb (Fs.path_eqb k p) && R p))).
  destruct (Ws.is_prefix k q) eqn:Ep; [|left; reflexivity].
  destruct (Fs.path_eqb k q) eqn:Eq; [left; reflexivity|].
  destruct (R q); [right | left; reflexivity].
  split; [reflexivity|]. split; [|reflexivity].
  intros ->. rewrite path_eqb_refl in Eq. discriminate.
Qed.

End Pipeline.

(** ** The [new] command *)
Section NewCommand.

Lemma plain_path_Forall : forall p, plain_path p = true -> Forall (fun s => plain_seg s = true) p.
Proof. intros p H. apply Forall_forall. intros x Hx. unfold plain_path in H. rewrite forallb_forall in H. auto. Qed.

Lemma for_each_disk : forall A (f : A -> Ws.M unit) l env d r d',
  (forall x d0 r0 d0', f x env d0 = (r0, d0') -> d0' = d0) ->
  Ws.for_each f l env d = (r, d') -> d' = d.
Proof.
  intros A f l env. induction l as [|x l IH]; intros d r d' Hf H; simpl in H.
  - injection H as _ <-. reflexivity.
  - unfold Ws.bind in H. destruct (f x env d) as [[u|e] d1] eqn:E.
    + apply Hf in E. subst d1. eapply IH; eassumption.
    + injection H as _ <-. eapply Hf; eassumption.
Qed.

Lemma check_disk : forall v env d r d', Cli.check v env d = (r, d') -> d' = d.
Proof. intros [[|]|m] env d r d' H; unfold Cli.check, Ws.ret, Ws.throw in H; congruence. Qed.

Lemma check_inl : forall v env d d', Cli.check v env d = (inl tt, d') -> v = inl true.
Proof. intros [[|]|m] env d d' H; unfold Cli.check, Ws.ret, Ws.throw in H; congruence. Qed.

(** [newCommand_prepare] reads the disk only through the name check and
    builds the absolute project path. *)
Lemma prepare_ok : forall name cmd r env d cfg d',
  Cli.newCommand_prepare name cmd r env d = (inl cfg, d') ->
  d' = d
  /\ Validator.validateProjectName (Ws.cwd env) d name = inl true
  /\ Ws.wc_projectName cfg = name
  /\ Ws.wc_projectPath cfg = Path.to_string (Path.resolve (Ws.cwd env) [name]).
Proof.
  intros name cmd r env d cfg d' H. unfold Cli.newCommand_prepare in H.
  apply bind_inl in H as (nv & dA & Hv & H).
  unfold Cli.validateProjectNameM in Hv. injection Hv as Hv <-.
  apply bind_inl in H as ([] & dB & Hc & H).
  pose proof (check_disk _ _ _ _ _ Hc) as ->. apply check_inl in Hc. subst nv.
  apply bind_inl in H as ([] & dC & Hc2 & H).
  apply check_disk in Hc2. subst dC.
  destruct (Tpl.getTemplate r _) as [t|]; [|discriminate].
  apply bind_inl in H as ([] & dD & Hf & H).
  apply for_each_disk in Hf.
  2:{ intros o d0 r0 d0' Ho. destruct (Val.is_undefined _);
      [unfold Ws.ret in Ho; congruence | eapply check_disk; exact Ho]. }
  subst dD. unfold Ws.bind, Ws.ask, Ws.ret in H. injection H as <- <-.
  repeat split; auto.
Qed.

(** [WorkspaceGenerator.generate] returns normally only when its [try]
    block does: the [catch] always rethrows. *)
Lemma generate_inl : forall cfg env d u d',
  Ws.generate cfg env d = (inl u, d') -> Ws.generate_steps cfg env d = (inl u, d').
Proof.
  intros cfg env d u d' H. unfold Ws.generate, Ws.catch_ in H.
  destruct (Ws.generate_steps cfg env d) as [[u0|e] d1]; [exact H|].
  unfold Ws.bind, Ws.throw in H.
  destruct (Ws.cleanupPartialGeneration _ env d1) as [[]  d2]; discriminate.
Qed.

Lemma newCommand_ok : forall name cmd r env d d',
  Cli.newCommand name cmd r env d = (Cli.ExitOk, d') ->
  exists cfg, Cli.newCommand_prepare name cmd r env d = (inl cfg, d)
    /\ Ws.generate cfg env d = (inl tt, d').
Proof.
  intros name cmd r env d d' H. unfold Cli.newCommand in H.
  destruct (Ws.bind (Cli.newCommand_prepare name cmd r) Ws.generate env d)
    as [[[]|e] d1] eqn:E; [|discriminate].
  injection H as <-. apply bind_inl in E as (cfg & d0 & Hp & Hg).
  pose proof (prepare_ok _ _ _ _ _ _ _ Hp) as [-> _]. eauto.
Qed.

Lemma newCommand_invalid_name : forall name cmd r env d msg,
  Validator.validateProjectName (Ws.cwd env) d name = inr msg ->
  Cli.newCommand name cmd r env d = (Cli.Exit1 msg, d).
Proof.
  intros name cmd r env d msg H.
  unfold Cli.newCommand, Cli.newCommand_prepare, Ws.bind, Cli.validateProjectNameM.
  rewrite H. reflexivity.
Qed.

(** Past the disk-independent rules, the name check is the existence test. *)
Lemma validate_exists_step : forall cwd d name,
  claimed_name_pattern name = true -> String.length name <= 50 ->
  Validator.includes Validator.reservedNames (Js.toLowerCase name) = false ->
  Validator.validateProjectName cwd d name =
    if Fs.exists_path d (Path.resolve cwd [name])
    then inr ("Directory " ++ Js.dq ++ name ++ Js.dq ++ " already exists in the current location")
    else inl true.
Proof.
  intros cwd d name Hp Hl Hr. rewrite <- pattern_split in Hp.
  apply andb_prop in Hp as [H1 H2].
  unfold Validator.validateProjectName.
  assert (E0 : (String.eqb name "" || String.eqb (Js.trim name) "") = false).
  { destruct name as [|c r]; [discriminate|].
    simpl in H2. apply orb_false_intro; [reflexivity|].
    apply String.eqb_neq, trim_letter_nonempty, H2. }
  rewrite E0, H1, H2, Hr. simpl.
  apply Nat.ltb_ge in Hl. rewrite Hl. reflexivity.
Qed.

(** The destination of a project name, seen through its string form. *)
Lemma resolve_project_path : forall cwd name,
  plain_path cwd = true ->
  Path.resolve cwd [Path.to_string (Path.resolve cwd [name])] = Path.resolve cwd [name].
Proof.
  intros cwd name Hc. rewrite resolve_to_string_cons; [apply app_nil_r | | constructor].
  apply resolve_plain_out, plain_path_Forall, Hc.
Qed.

End NewCommand.

(** ** Strings *)
Lemma string_app_assoc : forall a b c : string, (a ++ b) ++ c = a ++ (b ++ c).
Proof. induction a as [|x a IH]; intros; simpl; [reflexivity|]. rewrite IH. reflexivity. Qed.

Lemma string_app_nil_r : forall a : string, a ++ "" = a.
Proof. induction a as [|x a IH]; simpl; [reflexivity|]. rewrite IH. reflexivity. Qed.

(** ** The generated file paths *)
Section GeneratedPaths.

Lemma all_templates_registered : Tpl.getAllTemplates Templates.defaultRegistry = Templates.all_templates.
Proof. reflexivity. Qed.

Lemma vault_registered : In vault_template (Tpl.getAllTemplates Templates.defaultRegistry).
Proof. rewrite all_templates_registered. do 5 right. left. reflexivity. Qed.

(** The six generators are the staking one and five of one shape. *)
Lemma generator_shapes : forall t, In t Templates.all_templates ->
  (forall cwd ctx, Tpl.generate (Tpl.generator t) cwd ctx = Gen.staking_generate cwd ctx)
  \/ exists tpl, forall cwd ctx, Tpl.generate (Tpl.generator t) cwd ctx = Gen.plain_generate tpl cwd ctx.
Proof.
  intros t Ht.
  destruct Ht as [<-|[<-|[<-|[<-|[<-|[<-|[]]]]]]];
    [right; exists "nft-minting" | left | right; eexists | right; eexists
    | right; eexists | right; eexists]; intros; reflexivity.
Qed.

Lemma at_inside : forall cwd ctx name rel,
  plain_path cwd = true -> plain_seg name = true ->
  Tpl.projectPath ctx = Path.to_string (Path.resolve cwd [name]) ->
  Forall (fun s => plain_seg s = true) rel ->
  Path.resolve cwd [Gen.at_ cwd ctx rel] = (Path.resolve cwd [Tpl.projectPath ctx] ++ rel)%list.
Proof.
  intros cwd ctx name rel Hc Hn Hp Hr.
  pose proof (plain_path_Forall _ Hc) as Hc'.
  unfold Gen.at_. change (Path.resolve cwd [?x]) with (Ws.key (env_at cwd false (Ws.Exited 0)) x).
  rewrite key_to_string by (apply resolve_plain_out; exact Hc').
  unfold Ws.key, env_at; simpl Ws.cwd.
  rewrite Hp. rewrite resolve_project_path by exact Hc.
  apply resolve_to_string_cons; [apply resolve_plain_out, Hc' | exact Hr].
Qed.

(** With an absolute project path the file paths do not read the working
    directory. *)
Lemma at_absolute : forall cwd1 cwd2 ctx rel r,
  Tpl.projectPath ctx = String "/"%char r -> Gen.at_ cwd1 ctx rel = Gen.at_ cwd2 ctx rel.
Proof.
  intros cwd1 cwd2 ctx rel r Hp. unfold Gen.at_, Path.resolve. simpl fold_left.
  rewrite Hp. reflexivity.
Qed.

End GeneratedPaths.

(** * Claims *)

(** C10: [validateProjectName] returns [true] exactly when the name matches
    [^[a-zA-Z][a-zA-Z0-9_-]*$], has at most 50 characters, is not
    case-insensitively reserved and does not exist in the working
    directory; otherwise it returns a message string. It accepts strictly
    fewer names than the spec's naming rules: ["1abc"] (no leading letter)
    and a 51-letter name pass those rules yet are refused. *)
Theorem validateProjectName_exact : forall cwd d name,
  (Validator.validateProjectName cwd d name = inl true <->
   (claimed_name_pattern name = true /\ String.length name <= 50
    /\ Validator.includes Validator.reservedNames (Js.toLowerCase name) = false
    /\ Fs.exists_path d (Path.resolve cwd [name]) = false))
  /\ (Validator.validateProjectName cwd d name <> inl true ->
      exists msg, Validator.validateProjectName cwd d name = inr msg)
  /\ (Fs.exists_path d (Path.resolve cwd ["1abc"]) = false ->
      spec_name_ok cwd d "1abc" = true
      /\ Validator.validateProjectName cwd d "1abc" <> inl true)
  /\ (Fs.exists_path d (Path.resolve cwd ["aaaaaaaaaaaaaaaaaaaaaaaaaaaaaaaaaaaaaaaaaaaaaaaaaaa"]) = false ->
      spec_name_ok cwd d "aaaaaaaaaaaaaaaaaaaaaaaaaaaaaaaaaaaaaaaaaaaaaaaaaaa" = true
      /\ Validator.validateProjectName cwd d "aaaaaaaaaaaaaaaaaaaaaaaaaaaaaaaaaaaaaaaaaaaaaaaaaaa" <> inl true).
Proof.
  intros cwd d name. split; [apply validateProjectName_ok_iff|]. split.
  { intros H. destruct (validateProjectName_total cwd d name) as [E|E]; [contradiction|exact E]. }
  split; intros He; unfold spec_name_ok, Validator.validateProjectName; rewrite He;
    vm_compute; split; congruence.
Qed.

Lemma validateProjectName_exact_witness :
  exists msg, Validator.validateProjectName ["home"] [] "1abc" = inr msg.
Proof.
  apply (proj1 (proj2 (validateProjectName_exact ["home"] [] "1abc"))).
  vm_compute. discriminate.
Defined.

(** C5: registering a template whose id is present throws the
    duplicate-template error and returns the registry unchanged;
    registering a fresh id inserts it (appended, in insertion order) and
    changes no other entry. *)
Theorem registerTemplate_unique : forall r t,
  (Tpl.hasTemplate r (Tpl.id t) = true ->
   Tpl.registerTemplate r t =
     (inr ("Template with id " ++ Js.dq ++ Tpl.id t ++ Js.dq ++ " is already registered"), r))
  /\ (Tpl.hasTemplate r (Tpl.id t) = false ->
      fst (Tpl.registerTemplate r t) = inl tt
      /\ snd (Tpl.registerTemplate r t) = (r ++ [(Tpl.id t, t)])%list
      /\ Tpl.getTemplate (snd (Tpl.registerTemplate r t)) (Tpl.id t) = Some t
      /\ forall i, i <> Tpl.id t ->
           Tpl.getTemplate (snd (Tpl.registerTemplate r t)) i = Tpl.getTemplate r i).
Proof.
  intros r t. unfold Tpl.registerTemplate. split; intros H; rewrite H; [reflexivity|].
  unfold Tpl.hasTemplate in H.
  assert (Hs : Val.set r (Tpl.id t) t = (r ++ [(Tpl.id t, t)])%list).
  { clear -H. induction r as [|[k v] r IH]; simpl in *; [reflexivity|].
    destruct (String.eqb (Tpl.id t) k); [discriminate|]. rewrite IH; auto. }
  simpl. rewrite Hs. split; [reflexivity|]. split; [reflexivity|].
  unfold Tpl.getTemplate. split.
  - clear Hs. induction r as [|[k v] r IH]; simpl in *.
    + rewrite String.eqb_refl; reflexivity.
    + destruct (String.eqb (Tpl.id t) k); [discriminate|]. auto.
  - intros i Hi. clear Hs H. induction r as [|[k v] r IH]; simpl.
    + apply String.eqb_neq in Hi. rewrite Hi. reflexivity.
    + destruct (String.eqb i k); auto.
Qed.

Lemma registerTemplate_unique_witness :
  Tpl.registerTemplate Templates.defaultRegistry (Templates.mk "vault" "V" "" [] Gen.VaultGenerator)
  = (inr ("Template with id " ++ Js.dq ++ "vault" ++ Js.dq ++ " is already registered"),
     Templates.defaultRegistry).
Proof.
  exact (proj1 (registerTemplate_unique Templates.defaultRegistry
    (Templates.mk "vault" "V" "" [] Gen.VaultGenerator)) eq_refl).
Defined.

(** C4: for the staking template through the [new] command (whose
    [--token-decimals] option defaults to ['9']), once the project name is
    accepted: without the flag the resolved option is [9], with ['6'] it is
    [6], and ['19'] is refused by the option's 0..18 predicate with the
    invalid-value error before any file-system change or generation. *)
Theorem staking_tokenDecimals_resolution : forall env d name,
  Validator.validateProjectName (Ws.cwd env) d name = inl true ->
  (exists cfg,
     Cli.newCommand_prepare name (Cli.commander_new_options "staking" None)
       Templates.defaultRegistry env d = (inl cfg, d)
     /\ Ws.wc_options cfg = [("tokenDecimals", Val.JNum (Val.Fin 9))])
  /\ (exists cfg,
     Cli.newCommand_prepare name (Cli.commander_new_options "staking" (Some "6"))
       Templates.defaultRegistry env d = (inl cfg, d)
     /\ Ws.wc_options cfg = [("tokenDecimals", Val.JNum (Val.Fin 6))])
  /\ Cli.newCommand name (Cli.commander_new_options "staking" (Some "19"))
       Templates.defaultRegistry env d
     = (Cli.Exit1 ("Invalid value for option " ++ Js.dq ++ "tokenDecimals" ++ Js.dq), d).
Proof.
  intros env d name H.
  split; [|split];
    unfold Cli.newCommand, Cli.newCommand_prepare, Ws.bind, Cli.validateProjectNameM;
    rewrite H; [eexists; split; reflexivity | eexists; split; reflexivity | reflexivity].
Qed.

Lemma staking_tokenDecimals_resolution_witness :
  Cli.newCommand "pool" (Cli.commander_new_options "staking" (Some "19"))
    Templates.defaultRegistry
    {| Ws.cwd := ["home"]; Ws.mkdir_fails := fun _ => false; Ws.write_fails := fun _ => false;
       Ws.pnpm_installed := true; Ws.install_result := Ws.Exited 0; Ws.rm_fails := false;
       Ws.rm_removed := fun _ => false |} []
  = (Cli.Exit1 ("Invalid value for option " ++ Js.dq ++ "tokenDecimals" ++ Js.dq), []).
Proof.
  exact (proj2 (proj2 (staking_tokenDecimals_resolution
    {| Ws.cwd := ["home"]; Ws.mkdir_fails := fun _ => false; Ws.write_fails := fun _ => false;
       Ws.pnpm_installed := true; Ws.install_result := Ws.Exited 0; Ws.rm_fails := false;
       Ws.rm_removed := fun _ => false |}
    [] "pool" eq_refl))).
Defined.

(** C9 (counterexample): [extractTemplateOptions] does not drop every
    falsy supplied value: a [0] under the kebab-case key ['token-decimals']
    is kept, since [undefined || 0] is [0], which is not [undefined]. *)
Lemma extractTemplateOptions_keeps_falsy_kebab :
  Cli.extractTemplateOptions [("token-decimals", Val.JNum (Val.Fin 0))]
    [Templates.tokenDecimalsOption]
  = [("tokenDecimals", Val.JNum (Val.Fin 0))].
Proof. reflexivity. Qed.

(** C9 (amended): for every context whose [tokenDecimals] is [0] (a value the
    0..18 predicate accepts), the staking generator's
    [options.tokenDecimals || 9] substitutes 9: the program declares
    [const TOKEN_DECIMALS: u8 = 9;] and the tests and README interpolate 9,
    so no explicit 0 reaches the generated code. [extractTemplateOptions]
    drops a falsy camelCase value only when the kebab-case key is
    [undefined]; from the CLI, [--token-decimals 0] arrives as the truthy
    string ['0'] and the context does hold [0]. *)
Theorem staking_zero_decimals_become_default : forall cwd ctx,
  Val.getv (Tpl.options ctx) "tokenDecimals" = Val.JNum (Val.Fin 0) ->
  Gen.staking_program_code ctx =
    Gen.static "staking" "lib.rs" 0 ++ "const TOKEN_DECIMALS: u8 = 9;" ++ Js.nl
    ++ Gen.static "staking" "lib.rs" 1 ++ "pub mod " ++ Gen.programName ctx ++ " {" ++ Js.nl
    ++ Gen.static "staking" "lib.rs" 2
  /\ In (Gen.createFile (Gen.lib_rs_path cwd ctx) (Gen.staking_program_code ctx))
        (Tpl.generate Gen.StakingGenerator cwd ctx)
  /\ Val.to_string (Gen.decimals ctx) = "9"
  /\ (forall co, Val.truthy (Val.getv co "tokenDecimals") = false ->
        Val.getv co "token-decimals" = Val.JUndef ->
        Cli.extractTemplateOptions co [Templates.tokenDecimalsOption] = [])
  /\ Cli.extractTemplateOptions (Cli.commander_new_options "staking" (Some "0"))
       [Templates.tokenDecimalsOption] = [("tokenDecimals", Val.JNum (Val.Fin 0))].
Proof.
  intros cwd ctx H.
  assert (Hd : Gen.decimals ctx = Val.JNum (Val.Fin 9)).
  { unfold Gen.decimals, Val.or. rewrite H. reflexivity. }
  split; [|split; [|split; [|split]]].
  - unfold Gen.staking_program_code. rewrite Hd. reflexivity.
  - left. reflexivity.
  - rewrite Hd. reflexivity.
  - intros co H1 H2. unfold Cli.extractTemplateOptions. simpl.
    unfold Val.or. rewrite H1, H2. reflexivity.
  - reflexivity.
Qed.

Lemma staking_zero_decimals_become_default_witness :
  Gen.staking_program_code
    {| Tpl.projectName := "pool"; Tpl.projectPath := "/home/pool";
       Tpl.options := [("tokenDecimals", Val.JNum (Val.Fin 0))] |}
  = Gen.static "staking" "lib.rs" 0 ++ "const TOKEN_DECIMALS: u8 = 9;" ++ Js.nl
    ++ Gen.static "staking" "lib.rs" 1 ++ "pub mod pool {" ++ Js.nl
    ++ Gen.static "staking" "lib.rs" 2.
Proof.
  exact (proj1 (staking_zero_decimals_become_default ["home"]
    {| Tpl.projectName := "pool"; Tpl.projectPath := "/home/pool";
       Tpl.options := [("tokenDecimals", Val.JNum (Val.Fin 0))] |} eq_refl)).
Defined.

(** C1 (counterexample): when the cleanup deletion itself fails
    ([rmSync] throws, which [cleanupPartialGeneration] only logs), the
    original error is still the one rethrown, but the destination
    [/home/v] still exists after [generate] returns. *)
Lemma generate_rollback_rm_failure :
  fst (Ws.generate (cfg_for ["home"] "v" vault_template []) (env_at ["home"] true (Ws.Exited 1)) [])
    = inr "pnpm install exited with code 1. Check the output above for details."
  /\ Fs.exists_path
       (snd (Ws.generate (cfg_for ["home"] "v" vault_template []) (env_at ["home"] true (Ws.Exited 1)) []))
       ["home"; "v"] = true.
Proof. split; vm_compute; reflexivity. Qed.

(** C1 (amended): when a step of the [try] block fails with error [e],
    [generate] rethrows [e] unchanged, whatever happens in the cleanup;
    when the cleanup deletion succeeds, nothing is left at the destination
    (other than the root); when it fails, the destination is still there,
    every entry outside it is as the failing step left it, and the only
    change is that some entries strictly below it may be gone. *)
Theorem generate_rollback : forall cfg env d e d1,
  Ws.generate_steps cfg env d = (inr e, d1) ->
  fst (Ws.generate cfg env d) = inr e
  /\ (Ws.rm_fails env = false -> Ws.key env (Ws.wc_projectPath cfg) <> [] ->
      Fs.exists_path (snd (Ws.generate cfg env d)) (Ws.key env (Ws.wc_projectPath cfg)) = false)
  /\ (Ws.rm_fails env = true -> forall q,
      Fs.lookup (snd (Ws.generate cfg env d)) q = Fs.lookup d1 q
      \/ (Ws.is_prefix (Ws.key env (Ws.wc_projectPath cfg)) q = true
          /\ q <> Ws.key env (Ws.wc_projectPath cfg)
          /\ Fs.lookup (snd (Ws.generate cfg env d)) q = None)).
Proof.
  intros cfg env d e d1 H. unfold Ws.generate, Ws.catch_. rewrite H.
  unfold Ws.cleanupPartialGeneration, Ws.catch_, Ws.bind, Ws.pathExists, Ws.rmSync, Ws.ret, Ws.throw.
  destruct (Fs.exists_path d1 (Ws.key env (Ws.wc_projectPath cfg))) eqn:Ex;
    destruct (Ws.rm_fails env) eqn:Er; simpl;
    (split; [reflexivity | split; intros; try discriminate; try (left; reflexivity)]).
  - apply lookup_after_failed_rm.
  - destruct (Ws.key env (Ws.wc_projectPath cfg)) as [|a p] eqn:Ek; [contradiction|].
    unfold Fs.exists_path. rewrite lookup_after_rm. reflexivity.
  - exact Ex.
Qed.

Lemma generate_rollback_witness :
  fst (Ws.generate (cfg_for ["home"] "v" vault_template []) (env_at ["home"] false (Ws.Exited 1)) [])
    = inr "pnpm install exited with code 1. Check the output above for details."
  /\ Fs.exists_path
       (snd (Ws.generate (cfg_for ["home"] "v" vault_template []) (env_at ["home"] false (Ws.Exited 1)) []))
       ["home"; "v"] = false.
Proof.
  assert (H : Ws.generate_steps (cfg_for ["home"] "v" vault_template []) (env_at ["home"] false (Ws.Exited 1)) []
              = (inr "pnpm install exited with code 1. Check the output above for details.",
                 snd (Ws.generate_steps (cfg_for ["home"] "v" vault_template [])
                        (env_at ["home"] false (Ws.Exited 1)) [])))
    by (vm_compute; reflexivity).
  destruct (generate_rollback _ _ _ _ _ H) as [H1 [H2 _]].
  split; [exact H1|]. apply H2; [reflexivity | vm_compute; discriminate].
Defined.

(** C2 (counterexample): [WorkspaceGenerator.generate] has no collision
    check of its own. Run a second time over the output of a first run
    of the same project, it overwrites it and, when installation then
    fails, its rollback deletes the first run's files ([README.md]
    included); the error is the installation error, not a collision. *)
Lemma generate_second_run_destroys_first :
  let cfg := cfg_for ["home"] "v" vault_template [] in
  let d1 := snd (Ws.generate cfg (env_at ["home"] false (Ws.Exited 0)) []) in
  fst (Ws.generate cfg (env_at ["home"] false (Ws.Exited 0)) []) = inl tt
  /\ Fs.exists_path d1 ["home"; "v"] = true
  /\ Fs.lookup d1 ["home"; "v"; "README.md"] <> None
  /\ fst (Ws.generate cfg (env_at ["home"] false (Ws.Exited 1)) d1)
     = inr "pnpm install exited with code 1. Check the output above for details."
  /\ Fs.lookup (snd (Ws.generate cfg (env_at ["home"] false (Ws.Exited 1)) d1))
       ["home"; "v"; "README.md"] = None.
Proof. vm_compute. repeat split; try reflexivity; discriminate. Qed.

(** C2 (amended): through the [new] command, a project whose destination
    already exists is refused by [validateProjectName] before any disk
    change, so no rollback runs: the exit carries the name check's message
    and the disk is unchanged; when the name passes the other rules, the
    message is the already-exists one. In particular, after a successful
    [new] the same name in the same directory fails with that message and
    leaves the first output untouched. *)
Theorem newCommand_collision : forall name cmd cmd' r env d d1,
  plain_path (Ws.cwd env) = true ->
  (Fs.exists_path d (Path.resolve (Ws.cwd env) [name]) = true ->
   exists msg, Cli.newCommand name cmd r env d = (Cli.Exit1 msg, d))
  /\ (Fs.exists_path d (Path.resolve (Ws.cwd env) [name]) = true ->
      claimed_name_pattern name = true -> String.length name <= 50 ->
      Validator.includes Validator.reservedNames (Js.toLowerCase name) = false ->
      Cli.newCommand name cmd r env d
      = (Cli.Exit1 ("Directory " ++ Js.dq ++ name ++ Js.dq ++ " already exists in the current location"), d))
  /\ (Cli.newCommand name cmd r env d = (Cli.ExitOk, d1) ->
      Cli.newCommand name cmd' r env d1
      = (Cli.Exit1 ("Directory " ++ Js.dq ++ name ++ Js.dq ++ " already exists in the current location"), d1)).
Proof.
  intros name cmd cmd' r env d d1 Hc. split; [|split].
  - intros He. destruct (validateProjectName_total (Ws.cwd env) d name) as [E|[msg E]].
    + apply validateProjectName_ok_iff in E as (_ & _ & _ & E). congruence.
    + exists msg. apply newCommand_invalid_name, E.
  - intros He Hp Hl Hr. apply newCommand_invalid_name.
    rewrite validate_exists_step by assumption. rewrite He. reflexivity.
  - intros H. apply newCommand_ok in H as (cfg & Hp & Hg).
    destruct (prepare_ok _ _ _ _ _ _ _ Hp) as (_ & Hv & _ & Hpp).
    apply generate_inl in Hg.
    destruct (generate_steps_ok _ _ _ _ (plain_path_Forall _ Hc) Hg) as [Hex _].
    rewrite Hpp, resolve_project_path in Hex by exact Hc.
    apply validateProjectName_ok_iff in Hv as (Hp' & Hl & Hr & _).
    apply newCommand_invalid_name.
    rewrite validate_exists_step by assumption. rewrite Hex. reflexivity.
Qed.

Lemma newCommand_collision_witness :
  Cli.newCommand "v" (Cli.commander_new_options "vault" None) Templates.defaultRegistry
    (env_at ["home"] false (Ws.Exited 0))
    (snd (Cli.newCommand "v" (Cli.commander_new_options "vault" None) Templates.defaultRegistry
            (env_at ["home"] false (Ws.Exited 0)) []))
  = (Cli.Exit1 ("Directory " ++ Js.dq ++ "v" ++ Js.dq ++ " already exists in the current location"),
     snd (Cli.newCommand "v" (Cli.commander_new_options "vault" None) Templates.defaultRegistry
            (env_at ["home"] false (Ws.Exited 0)) [])).
Proof.
  apply (proj2 (proj2 (newCommand_collision "v" (Cli.commander_new_options "vault" None)
    (Cli.commander_new_options "vault" None) Templates.defaultRegistry
    (env_at ["home"] false (Ws.Exited 0)) []
    (snd (Cli.newCommand "v" (Cli.commander_new_options "vault" None) Templates.defaultRegistry
            (env_at ["home"] false (Ws.Exited 0)) [])) eq_refl))).
  vm_compute. reflexivity.
Defined.

(** C3: for a working directory of plain segments and a project name that
    [validateProjectName] accepts, with the context the [new] command
    builds (the project path is [path.resolve(cwd, name)]), every file of
    each of the six registered generators resolves strictly inside the
    destination root. *)
Theorem generated_files_inside : forall t cwd d name ctx f,
  In t (Tpl.getAllTemplates Templates.defaultRegistry) ->
  plain_path cwd = true ->
  Validator.validateProjectName cwd d name = inl true ->
  Tpl.projectName ctx = name ->
  Tpl.projectPath ctx = Path.to_string (Path.resolve cwd [name]) ->
  In f (Tpl.generate (Tpl.generator t) cwd ctx) ->
  exists rest, rest <> [] /\
    Path.resolve cwd [Tpl.path f] = (Path.resolve cwd [Tpl.projectPath ctx] ++ rest)%list.
Proof.
  intros t cwd d name ctx f Ht Hc Hv Hn Hp Hf.
  rewrite all_templates_registered in Ht.
  apply validateProjectName_ok_iff in Hv as (Hpat & _ & _ & _).
  destruct (valid_name_plain name Hpat) as [Hname Hsfx].
  assert (Hts : plain_seg (name ++ ".ts") = true) by (apply Hsfx; reflexivity).
  subst name.
  assert (Hin : forall rel, Forall (fun s => plain_seg s = true) rel -> rel <> [] ->
            exists rest, rest <> [] /\
              Path.resolve cwd [Gen.at_ cwd ctx rel] = (Path.resolve cwd [Tpl.projectPath ctx] ++ rest)%list).
  { intros rel Hr Hne. exists rel. split; [exact Hne|]. eapply at_inside; eassumption. }
  destruct (generator_shapes t Ht) as [Hg|[tpl Hg]]; rewrite Hg in Hf;
    destruct Hf as [<-|[<-|[<-|[<-|[<-|[<-|[]]]]]]];
    apply Hin; try discriminate; repeat constructor; assumption.
Qed.

Lemma generated_files_inside_witness :
  exists rest, rest <> [] /\
    Path.resolve ["home"] [Tpl.path (nth 2 (Tpl.generate (Tpl.generator vault_template) ["home"]
      {| Tpl.projectName := "my-vault"; Tpl.projectPath := "/home/my-vault"; Tpl.options := [] |})
      (Gen.createFile "" ""))]
    = (Path.resolve ["home"] [Tpl.projectPath
         {| Tpl.projectName := "my-vault"; Tpl.projectPath := "/home/my-vault"; Tpl.options := [] |}]
       ++ rest)%list.
Proof.
  assert (Hv : Validator.validateProjectName ["home"] [] "my-vault" = inl true) by reflexivity.
  assert (Hf : In (nth 2 (Tpl.generate (Tpl.generator vault_template) ["home"]
      {| Tpl.projectName := "my-vault"; Tpl.projectPath := "/home/my-vault"; Tpl.options := [] |})
      (Gen.createFile "" ""))
    (Tpl.generate (Tpl.generator vault_template) ["home"]
      {| Tpl.projectName := "my-vault"; Tpl.projectPath := "/home/my-vault"; Tpl.options := [] |}))
    by (apply nth_In; simpl; lia).
  exact (generated_files_inside vault_template ["home"] [] "my-vault"
    {| Tpl.projectName := "my-vault"; Tpl.projectPath := "/home/my-vault"; Tpl.options := [] |}
    _ vault_registered eq_refl Hv eq_refl eq_refl Hf).
Defined.

(** C6: the generators are functions of their context and of the working
    directory only, and with an absolute project path (as the [new]
    command builds it) not even of the working directory: two calls of
    [generate] of any of the six registered templates on the same context
    give the same files, paths, contents and order, from any two working
    directories. *)
Theorem generate_deterministic : forall t cwd1 cwd2 ctx r,
  In t (Tpl.getAllTemplates Templates.defaultRegistry) ->
  Tpl.projectPath ctx = String "/"%char r ->
  Tpl.generate (Tpl.generator t) cwd1 ctx = Tpl.generate (Tpl.generator t) cwd2 ctx.
Proof.
  intros t cwd1 cwd2 ctx r Ht Hp. rewrite all_templates_registered in Ht.
  assert (E1 : Gen.lib_rs_path cwd1 ctx = Gen.lib_rs_path cwd2 ctx) by exact (at_absolute _ _ _ _ r Hp).
  assert (E2 : Gen.cargo_path cwd1 ctx = Gen.cargo_path cwd2 ctx) by exact (at_absolute _ _ _ _ r Hp).
  assert (E3 : Gen.tests_path cwd1 ctx = Gen.tests_path cwd2 ctx) by exact (at_absolute _ _ _ _ r Hp).
  assert (E4 : Gen.sdk_path cwd1 ctx = Gen.sdk_path cwd2 ctx) by exact (at_absolute _ _ _ _ r Hp).
  assert (E5 : Gen.readme_path cwd1 ctx = Gen.readme_path cwd2 ctx) by exact (at_absolute _ _ _ _ r Hp).
  assert (E6 : Gen.tsconfig_path cwd1 ctx = Gen.tsconfig_path cwd2 ctx) by exact (at_absolute _ _ _ _ r Hp).
  destruct (generator_shapes t Ht) as [Hg|[tpl Hg]]; rewrite !Hg;
    unfold Gen.staking_generate, Gen.plain_generate;
    rewrite E1, E2, E3, E4, E5, E6; reflexivity.
Qed.

Lemma generate_deterministic_witness :
  Tpl.generate (Tpl.generator vault_template) ["home"]
    {| Tpl.projectName := "my-vault"; Tpl.projectPath := "/home/my-vault"; Tpl.options := [] |}
  = Tpl.generate (Tpl.generator vault_template) ["tmp"; "elsewhere"]
    {| Tpl.projectName := "my-vault"; Tpl.projectPath := "/home/my-vault"; Tpl.options := [] |}.
Proof.
  exact (generate_deterministic vault_template ["home"] ["tmp"; "elsewhere"]
    {| Tpl.projectName := "my-vault"; Tpl.projectPath := "/home/my-vault"; Tpl.options := [] |}
    "home/my-vault" vault_registered eq_refl).
Defined.

(** C7: after a successful [generate] (working directory of plain
    segments), [Anchor.toml] at the destination root holds the fixed
    manifest with the program named by the project name with every [-]
    replaced by [_], next to the fixed registry and provider sections;
    [replace_hyphens] maps each code unit [-] to [_] and keeps the others,
    so ['my-vault'] gives ['my_vault']. *)
Theorem anchor_manifest : forall cfg env d d',
  plain_path (Ws.cwd env) = true ->
  Ws.generate cfg env d = (inl tt, d') ->
  Fs.lookup d' (Path.resolve (Ws.cwd env) [Ws.wc_projectPath cfg] ++ ["Anchor.toml"])%list
    = Some (Fs.File (Ws.anchorToml (Ws.wc_projectName cfg)))
  /\ Ws.anchorToml (Ws.wc_projectName cfg) =
     "[toolchain]" ++ Js.nl ++ Js.nl
     ++ "[features]" ++ Js.nl ++ "seeds = false" ++ Js.nl ++ "skip-lint = false" ++ Js.nl ++ Js.nl
     ++ "[programs.localnet]" ++ Js.nl
     ++ Js.replace_hyphens (Ws.wc_projectName cfg) ++ " = "
     ++ Js.dq ++ "Fg6PaFpoGXkYsidMpWTK6W2BeZ7FEfcYkg476zPFsLnS" ++ Js.dq ++ Js.nl ++ Js.nl
     ++ "[registry]" ++ Js.nl ++ "url = " ++ Js.dq ++ "https://api.apr.dev" ++ Js.dq ++ Js.nl ++ Js.nl
     ++ "[provider]" ++ Js.nl ++ "cluster = " ++ Js.dq ++ "Localnet" ++ Js.dq ++ Js.nl
     ++ "wallet = " ++ Js.dq ++ "~/.config/solana/id.json" ++ Js.dq ++ Js.nl ++ Js.nl
     ++ "[scripts]" ++ Js.nl ++ "test = " ++ Js.dq
     ++ "pnpm exec ts-node -r tsconfig-paths/register tests/**/*.ts" ++ Js.dq ++ Js.nl
  /\ (forall i, String.get i (Js.replace_hyphens (Ws.wc_projectName cfg))
        = option_map (fun c => if Ascii.eqb c "-"%char then "_"%char else c)
                     (String.get i (Ws.wc_projectName cfg)))
  /\ Js.replace_hyphens "my-vault" = "my_vault".
Proof.
  intros cfg env d d' Hc H.
  apply generate_inl in H.
  destruct (generate_steps_ok _ _ _ _ (plain_path_Forall _ Hc) H) as (_ & HA & _).
  split; [exact HA|]. split; [|split; [|reflexivity]].
  - unfold Ws.anchorToml, Ws.text_lines, Ws.q. simpl map. cbn [String.concat].
    repeat rewrite string_app_assoc. reflexivity.
  - generalize (Ws.wc_projectName cfg). intros s i. revert s.
    induction i as [|i IH]; intros [|c s]; simpl; auto.
Qed.

Lemma anchor_manifest_witness :
  Fs.lookup (snd (Ws.generate (cfg_for ["home"] "my-vault" vault_template [])
                    (env_at ["home"] false (Ws.Exited 0)) []))
    (Path.resolve ["home"] [Ws.wc_projectPath (cfg_for ["home"] "my-vault" vault_template [])]
     ++ ["Anchor.toml"])%list
  = Some (Fs.File (Ws.anchorToml (Ws.wc_projectName (cfg_for ["home"] "my-vault" vault_template [])))).
Proof.
  assert (H : Ws.generate (cfg_for ["home"] "my-vault" vault_template [])
                (env_at ["home"] false (Ws.Exited 0)) []
              = (inl tt, snd (Ws.generate (cfg_for ["home"] "my-vault" vault_template [])
                                (env_at ["home"] false (Ws.Exited 0)) [])))
    by (vm_compute; reflexivity).
  exact (proj1 (anchor_manifest _ (env_at ["home"] false (Ws.Exited 0)) _ _ eq_refl H)).
Defined.

(** C8: after a successful [generate] (working directory of plain
    segments), [package.json] at the destination root holds
    [JSON.stringify(packageJson, null, 2)] of an object whose [name] is
    the project name, whose [version] is ['0.1.0'], whose [scripts] are
    the four fixed entries, and whose [dependencies] and [devDependencies]
    are the generator's [getDependencies] and [getDevDependencies] of the
    same context, entry for entry. *)
Theorem package_manifest : forall cfg env d d',
  plain_path (Ws.cwd env) = true ->
  Ws.generate cfg env d = (inl tt, d') ->
  let g := Tpl.generator (Ws.wc_template cfg) in
  let ctx := Ws.context_of cfg in
  Fs.lookup d' (Path.resolve (Ws.cwd env) [Ws.wc_projectPath cfg] ++ ["package.json"])%list
    = Some (Fs.File (Json.stringify (Ws.packageJson_of cfg)))
  /\ Json.field (Ws.packageJson_of cfg) "name" = Some (Json.JSStr (Ws.wc_projectName cfg))
  /\ Json.field (Ws.packageJson_of cfg) "version" = Some (Json.JSStr "0.1.0")
  /\ Json.field (Ws.packageJson_of cfg) "scripts"
     = Some (Json.JSObj [("build", Json.JSStr "anchor build"); ("test", Json.JSStr "anchor test");
                         ("deploy", Json.JSStr "anchor deploy");
                         ("test:unit", Json.JSStr "ts-node tests/**/*.ts")])
  /\ Json.field (Ws.packageJson_of cfg) "dependencies" = Some (Json.of_deps (Tpl.getDependencies g ctx))
  /\ Json.field (Ws.packageJson_of cfg) "devDependencies"
     = Some (Json.of_deps (Tpl.getDevDependencies g ctx))
  /\ (forall k, Json.field (Json.of_deps (Tpl.getDependencies g ctx)) k
                = option_map Json.JSStr (Val.get (Tpl.getDependencies g ctx) k))
  /\ (forall k, Json.field (Json.of_deps (Tpl.getDevDependencies g ctx)) k
                = option_map Json.JSStr (Val.get (Tpl.getDevDependencies g ctx) k)).
Proof.
  intros cfg env d d' Hc H g ctx.
  apply generate_inl in H.
  destruct (generate_steps_ok _ _ _ _ (plain_path_Forall _ Hc) H) as (_ & _ & HP).
  assert (Hm : forall m k, Json.field (Json.of_deps m) k = option_map Json.JSStr (Val.get m k)).
  { intros m k. induction m as [|[k' v] m IH]; simpl; [reflexivity|].
    destruct (String.eqb k k'); [reflexivity | exact IH]. }
  repeat split; auto.
Qed.

Lemma package_manifest_witness :
  Fs.lookup (snd (Ws.generate (cfg_for ["home"] "my-vault" vault_template [])
                    (env_at ["home"] false (Ws.Exited 0)) []))
    (Path.resolve ["home"] [Ws.wc_projectPath (cfg_for ["home"] "my-vault" vault_template [])]
     ++ ["package.json"])%list
  = Some (Fs.File (Json.stringify (Ws.packageJson_of (cfg_for ["home"] "my-vault" vault_template [])))).
Proof.
  assert (H : Ws.generate (cfg_for ["home"] "my-vault" vault_template [])
                (env_at ["home"] false (Ws.Exited 0)) []
              = (inl tt, snd (Ws.generate (cfg_for ["home"] "my-vault" vault_template [])
                                (env_at ["home"] false (Ws.Exited 0)) [])))
    by (vm_compute; reflexivity).
  exact (proj1 (package_manifest _ (env_at ["home"] false (Ws.Exited 0)) _ _ eq_refl H)).
Defined.

(** * Further properties of the code *)

(** ** [Validator.validatePath] *)

Lemma prefix_iff : forall t s, String.prefix t s = true <-> exists b, s = t ++ b.
Proof.
  induction t as [|a t IH]; intros s; simpl.
  - split; [intros _; exists s; reflexivity | destruct s; reflexivity].
  - destruct s as [|b s]; simpl.
    + split; [discriminate | intros [x Hx]; discriminate].
    + destruct (ascii_dec a b) as [<-|Hab]; cbv beta iota.
      * rewrite IH. split; intros [x Hx]; exists x; [subst; reflexivity | injection Hx; auto].
      * split; [discriminate | intros [x Hx]; injection Hx; intros; congruence].
Qed.

Lemma includes_iff : forall s t,
  PathValidator.includes s t = true <-> exists a b, s = a ++ t ++ b.
Proof.
  induction s as [|c r IH]; intros t; cbn [PathValidator.includes].
  - rewrite prefix_iff. split.
    + intros [b Hb]. exists "", b. exact Hb.
    + intros [[|x a] [b Hb]]; [exists b; exact Hb | discriminate].
  - rewrite orb_true_iff, prefix_iff, IH. split.
    + intros [[b Hb]|[a [b Hb]]].
      * exists "", b. exact Hb.
      * exists (String c a), b. rewrite Hb. reflexivity.
    + intros [[|x a] [b Hb]].
      * left. exists b. exact Hb.
      * right. injection Hb as <- Hb. exists a, b. exact Hb.
Qed.

Lemma has_invalid_char_iff : forall s,
  PathValidator.has_invalid_char s = true <->
  exists a c b, s = a ++ String c b /\ PathValidator.invalid_char c = true.
Proof.
  induction s as [|c r IH]; simpl.
  - split; [discriminate|]. intros [[|x a] [c [b [Hb _]]]]; discriminate.
  - rewrite orb_true_iff, IH. split.
    + intros [H|[a [c' [b [Hb H]]]]].
      * exists "", c, r. auto.
      * exists (String c a), c', b. rewrite Hb. auto.
    + intros [[|x a] [c' [b [Hb H]]]].
      * injection Hb as <- <-. left. exact H.
      * injection Hb as <- Hb. right. exists a, c', b. auto.
Qed.

Lemma invalid_char_iff : forall c,
  PathValidator.invalid_char c = true <-> In c ["<"; ">"; ":"; "034"; "|"; "?"; "*"]%char.
Proof.
  intros c. unfold PathValidator.invalid_char. rewrite existsb_exists. split.
  - intros [x [Hx Hc]]. apply Ascii.eqb_eq in Hc. subst. exact Hx.
  - intros H. exists c. split; [exact H | apply Ascii.eqb_refl].
Qed.

Lemma trim_empty : Js.trim "" = "".
Proof. reflexivity. Qed.

Lemma validatePath_ok_iff : forall path,
  PathValidator.validatePath path = inl true <->
  Js.trim path <> "" /\
  (forall a c b, path = a ++ String c b -> ~ In c ["<"; ">"; ":"; "034"; "|"; "?"; "*"]%char) /\
  (forall a b, path <> a ++ ".." ++ b).
Proof.
  intros path. unfold PathValidator.validatePath.
  destruct (String.eqb path "" || String.eqb (Js.trim path) "") eqn:E1.
  - split; [discriminate|]. intros [Ht _]. apply orb_true_iff in E1 as [E|E];
      apply String.eqb_eq in E; [subst; exfalso; apply Ht; reflexivity | contradiction].
  - apply orb_false_iff in E1 as [_ E1]. apply String.eqb_neq in E1.
    destruct (PathValidator.has_invalid_char path) eqn:E2.
    + split; [discriminate|]. intros [_ [Hc _]].
      apply has_invalid_char_iff in E2 as [a [c [b [Hb Hi]]]].
      exfalso. apply (Hc a c b Hb). apply invalid_char_iff, Hi.
    + destruct (PathValidator.includes path "..") eqn:E3.
      * split; [discriminate|]. intros [_ [_ Hd]].
        apply includes_iff in E3 as [a [b Hb]]. exfalso. exact (Hd a b Hb).
      * split; [intros _|reflexivity]. split; [exact E1|]. split.
        -- intros a c b Hb Hin. apply invalid_char_iff in Hin.
           assert (H : PathValidator.has_invalid_char path = true)
             by (apply has_invalid_char_iff; exists a, c, b; auto).
           congruence.
        -- intros a b Hb.
           assert (H : PathValidator.includes path ".." = true)
             by (apply includes_iff; exists a, b; exact Hb).
           congruence.
Qed.

Lemma name_char_path_ok : forall c, Js.is_name_char c = true ->
  PathValidator.invalid_char c = false /\ Ascii.eqb c "."%char = false.
Proof. intros c; destruct c as [[] [] [] [] [] [] [] []]; vm_compute; try discriminate; auto. Qed.

Lemma name_chars_path_ok : forall s, Js.all_chars Js.is_name_char s = true ->
  PathValidator.has_invalid_char s = false /\ PathValidator.includes s ".." = false.
Proof.
  induction s as [|c r IH]; intros H; [split; reflexivity|].
  simpl in H. apply andb_prop in H as [Hc Hr].
  destruct (name_char_path_ok c Hc) as [H1 H2]. destruct (IH Hr) as [H3 H4].
  cbn [PathValidator.has_invalid_char PathValidator.includes]. rewrite H1, H3, H4.
  split; [reflexivity|]. rewrite orb_false_r.
  destruct (String.prefix ".." (String c r)) eqn:E; [|reflexivity].
  apply prefix_iff in E as [b Hb]. injection Hb as -> _. discriminate.
Qed.

Lemma validatePath_of_name : forall cwd d name,
  Validator.validateProjectName cwd d name = inl true -> PathValidator.validatePath name = inl true.
Proof.
  intros cwd d name H. apply validateProjectName_ok_iff in H as [Hp _].
  destruct name as [|c r]; [discriminate|]. simpl in Hp. apply andb_prop in Hp as [Hl Hr].
  destruct (name_chars_path_ok (String c r)) as [H1 H2].
  { simpl. rewrite (letter_name_char c Hl), Hr. reflexivity. }
  unfold PathValidator.validatePath. rewrite H1, H2.
  destruct (String.eqb_spec (Js.trim (String c r)) "") as [E|E].
  - exfalso. exact (trim_letter_nonempty c r Hl E).
  - reflexivity.
Qed.

(** X1: [validatePath] accepts a path exactly when its trimmed form is not
    empty, none of its characters is one of [< > : | ? *] or the double
    quote, and it does not contain [..] anywhere. *)
Theorem validatePath_accepts_iff : forall path,
  PathValidator.validatePath path = inl true <->
  Js.trim path <> "" /\
  (forall a c b, path = a ++ String c b -> ~ In c ["<"; ">"; ":"; "034"; "|"; "?"; "*"]%char) /\
  (forall a b, path <> a ++ ".." ++ b).
Proof. exact validatePath_ok_iff. Qed.

(** X2: every project name that [validateProjectName] accepts is also a
    path that [validatePath] accepts. *)
Theorem validatePath_accepts_project_names : forall cwd d name,
  Validator.validateProjectName cwd d name = inl true -> PathValidator.validatePath name = inl true.
Proof. exact validatePath_of_name. Qed.

Lemma validatePath_accepts_project_names_witness :
  PathValidator.validatePath "my-app" = inl true.
Proof. exact (validatePath_accepts_project_names ["home"] [] "my-app" eq_refl). Defined.

(** ** The registry, option values and the [new] command *)

Section Objects.
Variable A : Type.

Lemma get_set : forall (o : Val.obj A) k v i,
  Val.get (Val.set o k v) i = if String.eqb i k then Some v else Val.get o i.
Proof.
  induction o as [|[k' v'] o IH]; intros k v i; simpl; [reflexivity|].
  destruct (String.eqb_spec k k') as [<-|Hk]; simpl.
  - destruct (String.eqb i k); reflexivity.
  - rewrite IH. destruct (String.eqb_spec i k') as [->|Hi]; [|reflexivity].
    destruct (String.eqb_spec k' k); [congruence | reflexivity].
Qed.

Lemma get_None_iff : forall (o : Val.obj A) k, Val.get o k = None <-> ~ In k (map fst o).
Proof.
  induction o as [|[k' v'] o IH]; intros k; simpl; [tauto|].
  destruct (String.eqb_spec k k') as [->|Hk]; [split; [discriminate | tauto]|].
  rewrite IH. split; [intros H [E|E]; [congruence | tauto] | tauto].
Qed.

Lemma keys_set_new : forall (o : Val.obj A) k v, Val.get o k = None ->
  map fst (Val.set o k v) = (map fst o ++ [k])%list.
Proof.
  induction o as [|[k' v'] o IH]; intros k v H; simpl in *; [reflexivity|].
  destruct (String.eqb k k'); [discriminate|]. simpl. rewrite IH by exact H. reflexivity.
Qed.

Lemma keys_set_old : forall (o : Val.obj A) k v, Val.get o k <> None ->
  map fst (Val.set o k v) = map fst o.
Proof.
  induction o as [|[k' v'] o IH]; intros k v H; simpl in *; [contradiction|].
  destruct (String.eqb_spec k k') as [->|]; simpl; [reflexivity|]. rewrite IH by exact H. reflexivity.
Qed.

Lemma NoDup_set : forall (o : Val.obj A) k v, NoDup (map fst o) -> NoDup (map fst (Val.set o k v)).
Proof.
  intros o k v H. destruct (Val.get o k) eqn:E.
  - rewrite keys_set_old by congruence. exact H.
  - rewrite keys_set_new by exact E. apply NoDup_app; auto using NoDup_cons, NoDup_nil.
    + intros x Hx [<-|[]]. apply get_None_iff in E. contradiction.
Qed.

Lemma In_set : forall (o : Val.obj A) k v k' v',
  In (k', v') (Val.set o k v) -> (k' = k /\ v' = v) \/ In (k', v') o.
Proof.
  induction o as [|[k0 v0] o IH]; intros k v k' v' H; simpl in *.
  - destruct H as [H|[]]. injection H as <- <-. auto.
  - destruct (String.eqb_spec k k0) as [<-|Hk]; simpl in H.
    + destruct H as [H|H]; [injection H as <- <-; auto | auto].
    + destruct H as [H|H]; [auto|]. destruct (IH k v k' v' H) as [H'|H']; auto.
Qed.

End Objects.

Arguments get_set {A}.
Arguments get_None_iff {A}.
Arguments NoDup_set {A}.
Arguments In_set {A}.

Lemma register_wf : forall r t, reg_wf r -> reg_wf (snd (Tpl.registerTemplate r t)).
Proof.
  intros r t [H1 H2]. unfold Tpl.registerTemplate.
  destruct (Tpl.hasTemplate r (Tpl.id t)); simpl; [split; assumption|].
  split; [apply NoDup_set, H1|]. apply Forall_forall. intros [k v] Hin.
  apply In_set in Hin as [[-> ->]|Hin]; [reflexivity|].
  rewrite Forall_forall in H2. exact (H2 _ Hin).
Qed.

Lemma register_seq_wf : forall ts r, reg_wf r -> reg_wf (register_seq r ts).
Proof. induction ts as [|t ts IH]; intros r H; simpl; [exact H|]. apply IH, register_wf, H. Qed.

Lemma register_seq_get : forall ts r i,
  Val.get (register_seq r ts) i =
  match Val.get r i with Some t => Some t | None => find (fun t => String.eqb (Tpl.id t) i) ts end.
Proof.
  induction ts as [|t ts IH]; intros r i; simpl.
  - destruct (Val.get r i); reflexivity.
  - rewrite IH. unfold Tpl.registerTemplate, Tpl.hasTemplate.
    destruct (Val.get r (Tpl.id t)) eqn:Et; simpl.
    + destruct (Val.get r i) eqn:Ei; [reflexivity|].
      destruct (String.eqb_spec (Tpl.id t) i) as [<-|]; [congruence | reflexivity].
    + rewrite get_set. rewrite (String.eqb_sym i (Tpl.id t)).
      destruct (String.eqb_spec (Tpl.id t) i) as [<-|]; [rewrite Et|]; reflexivity.
Qed.

Lemma find_id_None_iff : forall ts i,
  find (fun t => String.eqb (Tpl.id t) i) ts = None <-> ~ In i (map Tpl.id ts).
Proof.
  induction ts as [|t ts IH]; intros i; simpl; [tauto|].
  destruct (String.eqb_spec (Tpl.id t) i) as [->|Hi]; [split; [discriminate | tauto]|].
  rewrite IH. split; [intros H [E|E]; [congruence | tauto] | tauto].
Qed.

Lemma map_id_keys : forall r, Forall (fun kt => fst kt = Tpl.id (snd kt)) r ->
  map Tpl.id (Tpl.getAllTemplates r) = map fst r.
Proof.
  intros r H. unfold Tpl.getAllTemplates. rewrite map_map.
  induction H as [|[k t] r Hk _ IH]; simpl; [reflexivity|]. simpl in Hk. rewrite Hk, IH. reflexivity.
Qed.

Lemma registry_after_clear : forall r0 ts,
  let r := register_seq (RegistryOps.clear r0) ts in
  NoDup (map Tpl.id (Tpl.getAllTemplates r))
  /\ (forall i, Tpl.getTemplate r i = find (fun t => String.eqb (Tpl.id t) i) ts)
  /\ RegistryOps.getTemplateCount r = length (nodup String.string_dec (map Tpl.id ts)).
Proof.
  intros r0 ts r.
  assert (Hwf : reg_wf r) by (apply register_seq_wf; split; constructor).
  destruct Hwf as [Hnd Hid].
  assert (Hget : forall i, Tpl.getTemplate r i = find (fun t => String.eqb (Tpl.id t) i) ts)
    by (intros i; unfold Tpl.getTemplate, r; rewrite register_seq_get; reflexivity).
  split; [rewrite map_id_keys by exact Hid; exact Hnd|]. split; [exact Hget|].
  assert (Hin : forall i, In i (map fst r) <-> In i (nodup String.string_dec (map Tpl.id ts))).
  { intros i. rewrite nodup_In.
    destruct (In_dec String.string_dec i (map fst r)) as [Hi|Hi];
    destruct (In_dec String.string_dec i (map Tpl.id ts)) as [Hj|Hj]; try tauto; exfalso.
    - assert (E : find (fun t => String.eqb (Tpl.id t) i) ts = None)
        by (apply find_id_None_iff; exact Hj).
      rewrite <- Hget in E. apply get_None_iff in E. contradiction.
    - assert (E : Val.get r i = None) by (apply get_None_iff; exact Hi).
      pose proof (Hget i) as Hg. unfold Tpl.getTemplate in Hg. rewrite E in Hg. symmetry in Hg.
      apply find_id_None_iff in Hg. contradiction. }
  unfold RegistryOps.getTemplateCount. rewrite <- (length_map fst). apply Nat.le_antisymm.
  - apply NoDup_incl_length; [exact Hnd|]. intros i; apply Hin.
  - apply NoDup_incl_length; [apply NoDup_nodup|]. intros i; apply Hin.
Qed.

Lemma defaultRegistry_eq :
  Templates.defaultRegistry = map (fun t => (Tpl.id t, t)) Templates.all_templates.
Proof. reflexivity. Qed.

Lemma get_default : forall i,
  Val.get Templates.defaultRegistry i = find (fun t => String.eqb (Tpl.id t) i) Templates.all_templates.
Proof.
  intros i. rewrite defaultRegistry_eq. generalize Templates.all_templates as ts.
  induction ts as [|t ts IH]; simpl; [reflexivity|]. rewrite String.eqb_sym, IH. reflexivity.
Qed.

Lemma default_options : forall i,
  RegistryOps.getTemplateOptions Templates.defaultRegistry i =
  if String.eqb i "staking" then [Templates.tokenDecimalsOption] else [].
Proof.
  intros i. unfold RegistryOps.getTemplateOptions. rewrite get_default.
  unfold Templates.all_templates, find, Templates.mk, Tpl.id, Tpl.toptions.
  destruct (String.eqb_spec "nft-minting" i) as [<-|H1]; [reflexivity|].
  destruct (String.eqb_spec "staking" i) as [<-|H2]; [reflexivity|].
  destruct (String.eqb_spec "escrow" i) as [<-|H3]; [reflexivity|].
  destruct (String.eqb_spec "governance" i) as [<-|H4]; [reflexivity|].
  destruct (String.eqb_spec "marketplace" i) as [<-|H5]; [reflexivity|].
  destruct (String.eqb_spec "vault" i) as [<-|H6]; [reflexivity|].
  destruct (String.eqb_spec i "staking"); [congruence | reflexivity].
Qed.

Lemma default_template_names : forall name,
  Cli.validateTemplateName name Templates.defaultRegistry = inl true <->
  In name ["nft-minting"; "staking"; "escrow"; "governance"; "marketplace"; "vault"].
Proof.
  intros name. unfold Cli.validateTemplateName, Tpl.getTemplate. rewrite get_default.
  unfold Templates.all_templates, find, Templates.mk, Tpl.id.
  destruct (String.eqb_spec "nft-minting" name) as [<-|H1]; [split; [intros _; simpl; repeat (first [left; reflexivity | right]) | reflexivity]|].
  destruct (String.eqb_spec "staking" name) as [<-|H2]; [split; [intros _; simpl; repeat (first [left; reflexivity | right]) | reflexivity]|].
  destruct (String.eqb_spec "escrow" name) as [<-|H3]; [split; [intros _; simpl; repeat (first [left; reflexivity | right]) | reflexivity]|].
  destruct (String.eqb_spec "governance" name) as [<-|H4]; [split; [intros _; simpl; repeat (first [left; reflexivity | right]) | reflexivity]|].
  destruct (String.eqb_spec "marketplace" name) as [<-|H5]; [split; [intros _; simpl; repeat (first [left; reflexivity | right]) | reflexivity]|].
  destruct (String.eqb_spec "vault" name) as [<-|H6]; [split; [intros _; simpl; repeat (first [left; reflexivity | right]) | reflexivity]|].
  split; [|intros H; simpl in H; intuition congruence].
  destruct (String.eqb name "" || String.eqb (Js.trim name) ""); discriminate.
Qed.

Lemma bind_disk : forall A B (m : Ws.M A) (k : A -> Ws.M B) env,
  (forall d r d', m env d = (r, d') -> d' = d) ->
  (forall a d r d', k a env d = (r, d') -> d' = d) ->
  forall d r d', Ws.bind m k env d = (r, d') -> d' = d.
Proof.
  intros A B m k env Hm Hk d r d' H. unfold Ws.bind in H.
  destruct (m env d) as [[a|e] d1] eqn:E.
  - rewrite (Hk a d1 r d' H). exact (Hm _ _ _ E).
  - injection H as _ <-. exact (Hm _ _ _ E).
Qed.

Lemma prepare_disk : forall name cmd r env d res d',
  Cli.newCommand_prepare name cmd r env d = (res, d') -> d' = d.
Proof.
  intros name cmd r env. unfold Cli.newCommand_prepare.
  apply bind_disk; [intros d0 r0 d0' H; unfold Cli.validateProjectNameM in H; congruence|].
  intros nv. apply bind_disk; [intros; eapply check_disk; eassumption|]. intros _.
  apply bind_disk; [intros; eapply check_disk; eassumption|]. intros _.
  intros d0 r0 d0' H. destruct (Tpl.getTemplate r _) as [t|].
  - revert H. apply bind_disk.
    + intros d1 r1 d1'. apply for_each_disk. intros o d2 r2 d2' H2.
      destruct (Val.is_undefined _); [unfold Ws.ret in H2; congruence | eapply check_disk; eassumption].
    + intros _. apply bind_disk; [intros d1 r1 d1' H1; unfold Ws.ask in H1; congruence|].
      intros env'. intros d1 r1 d1' H1. unfold Ws.ret in H1. congruence.
  - unfold Ws.throw in H. congruence.
Qed.

Lemma newCommand_unknown : forall name t dec r env d,
  Validator.validateProjectName (Ws.cwd env) d name = inl true ->
  Js.trim t <> "" -> Tpl.getTemplate r t = None ->
  Cli.newCommand name (Cli.commander_new_options t dec) r env d =
    (Cli.Exit1 ("Template " ++ Js.dq ++ t ++ Js.dq ++ " not found. Available templates: "
                ++ String.concat ", " (map Tpl.id (Tpl.getAllTemplates r))), d).
Proof.
  intros name t dec r env d Hn Ht Hr.
  assert (Ht' : String.eqb t "" = false)
    by (apply String.eqb_neq; intros ->; apply Ht; reflexivity).
  assert (Hp : Cli.newCommand_prepare name (Cli.commander_new_options t dec) r env d =
    (inr ("Template " ++ Js.dq ++ t ++ Js.dq ++ " not found. Available templates: "
          ++ String.concat ", " (map Tpl.id (Tpl.getAllTemplates r))), d)).
  { unfold Cli.newCommand_prepare. unfold Ws.bind at 1. unfold Cli.validateProjectNameM. rewrite Hn.
    assert (Hg : Val.getv (Cli.commander_new_options t dec) "template" = Val.JStr t) by reflexivity.
    rewrite Hg. unfold Cli.validateTemplateName. rewrite Ht'.
    apply String.eqb_neq in Ht. rewrite Ht, Hr. reflexivity. }
  unfold Cli.newCommand. unfold Ws.bind at 1. rewrite Hp. reflexivity.
Qed.

Lemma staking_registered :
  Tpl.getTemplate Templates.defaultRegistry "staking" = Some staking_template.
Proof. reflexivity. Qed.

Lemma newCommand_staking_decimals : forall name s env d,
  Validator.validateProjectName (Ws.cwd env) d name = inl true -> s <> "" ->
  Cli.newCommand name (Cli.commander_new_options "staking" (Some s)) Templates.defaultRegistry env d =
  match Val.string_to_number s with
  | Val.NaN =>
      (Cli.Exit1 ("Option " ++ (Js.dq ++ "tokenDecimals" ++ Js.dq) ++ " must be a valid number"), d)
  | Val.Fin z =>
      if (0 <=? z)%Z && (z <=? 18)%Z then
        match Ws.generate (cfg_for (Ws.cwd env) name staking_template
                             [("tokenDecimals", Val.JNum (Val.Fin z))]) env d with
        | (inl _, d') => (Cli.ExitOk, d')
        | (inr e, d') => (Cli.Exit1 e, d')
        end
      else (Cli.Exit1 ("Invalid value for option " ++ (Js.dq ++ "tokenDecimals" ++ Js.dq)), d)
  end.
Proof.
  intros name s env d Hn Hs.
  assert (Hx : Cli.extractTemplateOptions (Cli.commander_new_options "staking" (Some s))
                 (Tpl.toptions staking_template)
               = [("tokenDecimals", Val.JNum (Val.string_to_number s))]).
  { unfold Cli.extractTemplateOptions. cbn. unfold Val.or. cbn.
    apply String.eqb_neq in Hs. rewrite Hs. reflexivity. }
  unfold Cli.newCommand. unfold Ws.bind at 1. unfold Cli.newCommand_prepare.
  unfold Ws.bind at 1. unfold Cli.validateProjectNameM. rewrite Hn.
  change (Val.getv (Cli.commander_new_options "staking" (Some s)) "template") with (Val.JStr "staking").
  cbv iota beta.
  change (Cli.validateTemplateName "staking" Templates.defaultRegistry) with (@inl bool string true).
  rewrite staking_registered, Hx.
  destruct (Val.string_to_number s) as [|z]; [reflexivity|].
  clear Hx. change (Tpl.toptions staking_template) with [Templates.tokenDecimalsOption].
  generalize staking_template as t. intros t.
  cbn -[Ws.generate cfg_for Path.resolve Path.to_string Z.leb].
  destruct ((0 <=? z)%Z && (z <=? 18)%Z); reflexivity.
Qed.

Lemma digit_not_ws : forall c, Js.is_digit c = true -> Js.is_ws c = false.
Proof. intros c; destruct c as [[] [] [] [] [] [] [] []]; vm_compute; congruence. Qed.

Lemma digit_not_sign : forall c, Js.is_digit c = true ->
  Ascii.eqb c "-"%char = false /\ Ascii.eqb c "+"%char = false.
Proof. intros c; destruct c as [[] [] [] [] [] [] [] []]; vm_compute; try discriminate; auto. Qed.

Lemma all_chars_forallb : forall p s, Js.all_chars p s = forallb p (list_ascii_of_string s).
Proof. induction s as [|c r IH]; simpl; [reflexivity|]. rewrite IH. reflexivity. Qed.

Lemma trim_start_digits : forall l, forallb Js.is_digit l = true -> l <> [] ->
  Js.trim_start (string_of_list_ascii l) = string_of_list_ascii l.
Proof.
  intros [|c l] H Hne; [contradiction|]. simpl in *. apply andb_prop in H as [Hc _].
  rewrite digit_not_ws by exact Hc. reflexivity.
Qed.

Lemma trim_digits : forall s, Js.all_chars Js.is_digit s = true -> s <> "" -> Js.trim s = s.
Proof.
  intros s H Hne. rewrite all_chars_forallb in H.
  assert (Hl : list_ascii_of_string s <> []) by (destruct s; [contradiction | discriminate]).
  unfold Js.trim.
  rewrite <- (string_of_list_ascii_of_string s) at 1.
  rewrite (trim_start_digits (list_ascii_of_string s)) by assumption. rewrite list_ascii_of_string_of_list_ascii.
  rewrite trim_start_digits.
  - rewrite list_ascii_of_string_of_list_ascii, rev_involutive. apply string_of_list_ascii_of_string.
  - rewrite forallb_forall in H |- *. intros x Hx. apply H, in_rev, Hx.
  - intros E. apply Hl. destruct (list_ascii_of_string s) as [|a l]; [reflexivity|].
    apply (f_equal (@length ascii)) in E. rewrite length_rev in E. discriminate.
Qed.

Lemma digits_value_some : forall s acc, Js.all_chars Js.is_digit s = true -> (0 <= acc)%Z ->
  exists z, Val.digits_value s acc = Some z /\ (0 <= z)%Z.
Proof.
  induction s as [|c r IH]; intros acc H Ha; simpl in *; [eauto|].
  apply andb_prop in H as [Hc Hr]. rewrite Hc. apply IH; [exact Hr | lia].
Qed.

Lemma string_to_number_digits : forall s, Js.all_chars Js.is_digit s = true -> s <> "" ->
  exists z, Val.digits_value s 0 = Some z /\ (0 <= z)%Z /\ Val.string_to_number s = Val.Fin z.
Proof.
  intros s H Hne. destruct (digits_value_some s 0 H ltac:(lia)) as [z [Hz Hz0]].
  exists z. split; [exact Hz|]. split; [exact Hz0|].
  unfold Val.string_to_number. rewrite trim_digits by assumption.
  destruct s as [|c r]; [contradiction|].
  simpl in H. apply andb_prop in H as [Hc _]. destruct (digit_not_sign c Hc) as [E1 E2].
  rewrite E1, E2. unfold Val.parse_unsigned. rewrite Hz. reflexivity.
Qed.

Lemma newCommand_staking_digit_string : forall name s env d,
  Validator.validateProjectName (Ws.cwd env) d name = inl true ->
  s <> "" -> Js.all_chars Js.is_digit s = true ->
  exists z, Val.digits_value s 0 = Some z /\
  Cli.newCommand name (Cli.commander_new_options "staking" (Some s)) Templates.defaultRegistry env d =
    if (z <=? 18)%Z then
      match Ws.generate (cfg_for (Ws.cwd env) name staking_template
                           [("tokenDecimals", Val.JNum (Val.Fin z))]) env d with
      | (inl _, d') => (Cli.ExitOk, d')
      | (inr e, d') => (Cli.Exit1 e, d')
      end
    else (Cli.Exit1 ("Invalid value for option " ++ (Js.dq ++ "tokenDecimals" ++ Js.dq)), d).
Proof.
  intros name s env d Hn Hs Hd.
  destruct (string_to_number_digits s Hd Hs) as [z [Hz [Hz0 E]]].
  exists z. split; [exact Hz|]. rewrite newCommand_staking_decimals by assumption. rewrite E.
  apply Z.leb_le in Hz0. rewrite Hz0. reflexivity.
Qed.

Lemma extract_fold : forall cmd all opts acc,
  incl opts all -> NoDup (map fst acc) -> (forall k v, In (k, v) acc -> typed_entry all k v) ->
  let res := fold_left
    (fun result o =>
       let value := Val.or (Val.getv cmd (Tpl.opt_name o)) (Val.getv cmd (Tpl.flag o)) in
       if Val.is_undefined value then result
       else
         let value' := match Tpl.type o with
                       | Tpl.TNumber => Val.JNum (Val.Number value)
                       | Tpl.TBoolean => Val.JBool (Val.truthy value)
                       | Tpl.TString => value
                       end in
         Val.set result (Tpl.opt_name o) value') opts acc in
  NoDup (map fst res) /\ (forall k v, In (k, v) res -> typed_entry all k v).
Proof.
  intros cmd all opts. induction opts as [|o opts IH]; intros acc Hincl Hnd Hty; simpl; [auto|].
  apply IH; [intros x Hx; apply Hincl; right; exact Hx | |].
  - destruct (Val.is_undefined _); [exact Hnd | apply NoDup_set, Hnd].
  - destruct (Val.is_undefined _) eqn:Eu; [exact Hty|].
    intros k v Hin. apply In_set in Hin as [[-> ->]|Hin]; [|exact (Hty k v Hin)].
    exists o. split; [apply Hincl; left; reflexivity|]. split; [reflexivity|].
    destruct (Tpl.type o); repeat split; try discriminate; eauto.
    intros E. rewrite E in Eu. discriminate.
Qed.

Lemma extract_typed : forall cmd opts,
  let res := Cli.extractTemplateOptions cmd opts in
  NoDup (map fst res) /\ (forall k v, In (k, v) res -> typed_entry opts k v).
Proof.
  intros cmd opts. apply extract_fold; [intros x Hx; exact Hx | constructor | intros k v []].
Qed.

(** X3: after [clear], registering any sequence of templates (a duplicate
    id being refused and ignored) gives a registry whose template ids are
    distinct, whose [getTemplate i] is the first template of the sequence
    with id [i], and whose [getTemplateCount] is the number of distinct ids
    of the sequence. *)
Theorem registry_clear_then_register : forall r0 ts,
  let r := register_seq (RegistryOps.clear r0) ts in
  NoDup (map Tpl.id (Tpl.getAllTemplates r))
  /\ (forall i, Tpl.getTemplate r i = find (fun t => String.eqb (Tpl.id t) i) ts)
  /\ RegistryOps.getTemplateCount r = length (nodup String.string_dec (map Tpl.id ts)).
Proof. exact registry_after_clear. Qed.

(** X4: in the default registry, [getTemplateOptions] gives the
    [tokenDecimals] option for the id ['staking'] and no option for any
    other id, unknown ids included. *)
Theorem defaultRegistry_options : forall i,
  RegistryOps.getTemplateOptions Templates.defaultRegistry i =
  if String.eqb i "staking" then [Templates.tokenDecimalsOption] else [].
Proof. exact default_options. Qed.

(** X5: against the default registry, [validateTemplateName] accepts
    exactly the six ids ['nft-minting'], ['staking'], ['escrow'],
    ['governance'], ['marketplace'] and ['vault']. *)
Theorem defaultRegistry_template_names : forall name,
  Cli.validateTemplateName name Templates.defaultRegistry = inl true <->
  In name ["nft-minting"; "staking"; "escrow"; "governance"; "marketplace"; "vault"].
Proof. exact default_template_names. Qed.

(** X9: with an accepted project name and a [--token-decimals] value [s]
    made of decimal digits, the [new] command for the staking template
    generates the workspace with [tokenDecimals] set to the value [z] of
    [s] when [z] is at most 18 (exit 0 on success, exit 1 with the
    generator's error otherwise), and otherwise exits with the
    invalid-value error without touching the disk. *)
Theorem newCommand_staking_tokenDecimals : forall name s env d,
  Validator.validateProjectName (Ws.cwd env) d name = inl true ->
  s <> "" -> Js.all_chars Js.is_digit s = true ->
  exists z, Val.digits_value s 0 = Some z /\
  Cli.newCommand name (Cli.commander_new_options "staking" (Some s)) Templates.defaultRegistry env d =
    if (z <=? 18)%Z then
      match Ws.generate (cfg_for (Ws.cwd env) name staking_template
                           [("tokenDecimals", Val.JNum (Val.Fin z))]) env d with
      | (inl _, d') => (Cli.ExitOk, d')
      | (inr e, d') => (Cli.Exit1 e, d')
      end
    else (Cli.Exit1 ("Invalid value for option " ++ (Js.dq ++ "tokenDecimals" ++ Js.dq)), d).
Proof. exact newCommand_staking_digit_string. Qed.

Lemma newCommand_staking_tokenDecimals_witness :
  Cli.newCommand "pool" (Cli.commander_new_options "staking" (Some "25")) Templates.defaultRegistry
    (env_at ["home"] false (Ws.Exited 0)) []
  = (Cli.Exit1 ("Invalid value for option " ++ (Js.dq ++ "tokenDecimals" ++ Js.dq)), []).
Proof.
  destruct (newCommand_staking_tokenDecimals "pool" "25" (env_at ["home"] false (Ws.Exited 0)) []
              eq_refl ltac:(discriminate) eq_refl) as [z [Hz E]].
  rewrite E. cbn in Hz. injection Hz as <-. reflexivity.
Defined.

(** X10: the preparation phase of the [new] command (name, template and
    option validation, building the configuration) never changes the
    disk, whatever its outcome. *)
Theorem newCommand_prepare_keeps_disk : forall name cmd r env d res d',
  Cli.newCommand_prepare name cmd r env d = (res, d') -> d' = d.
Proof. exact prepare_disk. Qed.

Lemma newCommand_prepare_keeps_disk_witness :
  snd (Cli.newCommand_prepare "pool" (Cli.commander_new_options "vault" None)
         Templates.defaultRegistry (env_at ["home"] false (Ws.Exited 0)) [(["home"], Fs.Dir)])
  = [(["home"], Fs.Dir)].
Proof.
  exact (newCommand_prepare_keeps_disk "pool" (Cli.commander_new_options "vault" None)
    Templates.defaultRegistry (env_at ["home"] false (Ws.Exited 0)) [(["home"], Fs.Dir)] _ _
    (surjective_pairing _)).
Defined.

(** X11: with an accepted project name and a template name that is not
    blank but not registered, the [new] command exits with code 1 and the
    message naming the template and listing the registered ids in
    registration order, and leaves the disk unchanged. *)
Theorem newCommand_unknown_template : forall name t dec r env d,
  Validator.validateProjectName (Ws.cwd env) d name = inl true ->
  Js.trim t <> "" -> Tpl.getTemplate r t = None ->
  Cli.newCommand name (Cli.commander_new_options t dec) r env d =
    (Cli.Exit1 ("Template " ++ Js.dq ++ t ++ Js.dq ++ " not found. Available templates: "
                ++ String.concat ", " (map Tpl.id (Tpl.getAllTemplates r))), d).
Proof. exact newCommand_unknown. Qed.

Lemma newCommand_unknown_template_witness :
  Cli.newCommand "pool" (Cli.commander_new_options "lending" None) Templates.defaultRegistry
    (env_at ["home"] false (Ws.Exited 0)) []
  = (Cli.Exit1 ("Template " ++ Js.dq ++ "lending" ++ Js.dq ++ " not found. Available templates: "
                ++ String.concat ", " (map Tpl.id (Tpl.getAllTemplates Templates.defaultRegistry))), []).
Proof.
  exact (newCommand_unknown_template "pool" "lending" None Templates.defaultRegistry
    (env_at ["home"] false (Ws.Exited 0)) [] eq_refl ltac:(vm_compute; discriminate) eq_refl).
Defined.

(** X12: [extractTemplateOptions] returns an object without duplicate
    keys, each entry stored under the [name] of one of the given options,
    with a defined value that is a number for a number option and a
    boolean for a boolean option. *)
Theorem extractTemplateOptions_typed : forall cmd opts,
  let res := Cli.extractTemplateOptions cmd opts in
  NoDup (map fst res) /\ (forall k v, In (k, v) res -> typed_entry opts k v).
Proof. exact extract_typed. Qed.

(** ** [FileSystemWriter]: directories, files and copies *)

Lemma str_length_app : forall a b, String.length (a ++ b) = String.length a + String.length b.
Proof. induction a as [|c a IH]; intros b; simpl; [reflexivity|]. rewrite IH. reflexivity. Qed.

Lemma get_app_r : forall pre t i, String.get (String.length pre + i) (pre ++ t) = String.get i t.
Proof. induction pre as [|c pre IH]; intros t i; simpl; [reflexivity|]. apply IH. Qed.

Lemma substring_prefix : forall pre t, substring 0 (String.length pre) (pre ++ t) = pre.
Proof. induction pre as [|c pre IH]; intros t; simpl; [destruct t; reflexivity|]. rewrite IH. reflexivity. Qed.

Lemma get_no_slash : forall s k, Js.all_chars no_slash s = true -> k < String.length s ->
  exists c, String.get k s = Some c /\ Ascii.eqb c "/"%char = false.
Proof.
  induction s as [|c s IH]; intros k H Hk; simpl in *; [lia|].
  apply andb_prop in H as [Hc Hs]. destruct k as [|k].
  - exists c. split; [reflexivity|]. unfold no_slash in Hc. destruct (Ascii.eqb c "/"%char); [discriminate | reflexivity].
  - apply IH; [exact Hs | lia].
Qed.

Lemma find_end_last : forall pre last, 1 <= String.length pre -> Js.all_chars no_slash last = true ->
  forall k, 1 <= k <= String.length last -> forall m,
  Dirname.find_end (pre ++ String "/" last) (String.length pre + k) m = Some (String.length pre).
Proof.
  intros pre last Hp Hl k. induction k as [|k IH]; intros Hk m; [lia|].
  rewrite Nat.add_succ_r. cbn [Dirname.find_end].
  rewrite <- Nat.add_succ_r, get_app_r. cbn [String.get].
  destruct (get_no_slash last k Hl ltac:(lia)) as [c [Hc Hcs]]. rewrite Hc, Hcs.
  destruct k as [|k].
  - rewrite Nat.add_0_r. destruct (String.length pre) as [|j] eqn:E; [lia|].
    cbn [Dirname.find_end]. rewrite <- E. rewrite <- (Nat.add_0_r (String.length pre)), get_app_r.
    reflexivity.
  - apply IH. lia.
Qed.

Lemma find_end_root : forall x, Js.all_chars no_slash x = true ->
  forall k, k <= String.length x -> forall m, Dirname.find_end (String "/" x) k m = None.
Proof.
  intros x Hx k. induction k as [|k IH]; intros Hk m; [reflexivity|].
  cbn [Dirname.find_end String.get].
  destruct (get_no_slash x k Hx ltac:(lia)) as [c [Hc Hcs]]. rewrite Hc, Hcs. apply IH. lia.
Qed.

Lemma concat_snoc : forall l y, l <> [] -> String.concat "" (l ++ [y])%list = String.concat "" l ++ y.
Proof.
  induction l as [|a l IH]; intros y Hne; [contradiction|].
  destruct l as [|b l]; [reflexivity|].
  cbn [app]. change (String.concat "" (a :: b :: (l ++ [y])%list))
    with (a ++ String.concat "" (b :: (l ++ [y])%list)).
  change (b :: (l ++ [y])%list) with ((b :: l) ++ [y])%list.
  rewrite IH by discriminate. change (String.concat "" (a :: b :: l)) with (a ++ String.concat "" (b :: l)).
  rewrite string_app_assoc. reflexivity.
Qed.

Lemma to_string_snoc : forall ps x, ps <> [] ->
  Path.to_string (ps ++ [x])%list = Path.to_string ps ++ String "/" x.
Proof.
  intros ps x Hne. destruct ps as [|a ps]; [contradiction|].
  change (Path.to_string ((a :: ps) ++ [x])%list)
    with (String.concat "" (map (fun s => "/" ++ s) ((a :: ps) ++ [x])%list)).
  rewrite map_app. change (map (fun s => "/" ++ s) [x]) with ["/" ++ x].
  rewrite concat_snoc by discriminate. reflexivity.
Qed.

Lemma to_string_cons_shape : forall a l, exists r, Path.to_string (a :: l) = String "/" (a ++ r).
Proof.
  intros a l. unfold Path.to_string. simpl map. destruct (map _ l) as [|b m].
  - exists "". simpl. rewrite string_app_nil_r. reflexivity.
  - exists (String.concat "" (b :: m)). reflexivity.
Qed.

Lemma dirname_to_string : forall p, p <> [] -> Forall (fun s => plain_seg s = true) p ->
  Dirname.dirname (Path.to_string p) = Path.to_string (removelast p).
Proof.
  intros p Hne Hp. destruct (exists_last Hne) as [ps [x ->]]. rewrite removelast_last.
  apply Forall_app in Hp as [Hps Hx]. inversion Hx as [|? ? Hx1 _]; subst.
  destruct (plain_seg_parts x Hx1) as [Hx2 [_ [_ Hxs]]].
  assert (Hlx : 1 <= String.length x) by (destruct x; [discriminate | simpl; lia]).
  destruct ps as [|a ps].
  - cbn [app]. replace (Path.to_string [x]) with (String "/" x)
      by reflexivity.
    unfold Dirname.dirname.
    replace (String.length (String "/" x) - 1) with (String.length x) by (simpl; lia).
    rewrite find_end_root by (exact Hxs || lia). reflexivity.
  - rewrite to_string_snoc by discriminate.
    destruct (to_string_cons_shape a ps) as [r Hr].
    inversion Hps as [|? ? Ha _]; subst.
    destruct (plain_seg_parts a Ha) as [Ha2 _].
    assert (Hla : 1 <= String.length a) by (destruct a; [discriminate | simpl; lia]).
    set (pre := Path.to_string (a :: ps)) in *.
    assert (Hlp : 2 <= String.length pre) by (rewrite Hr; simpl; rewrite str_length_app; lia).
    unfold Dirname.dirname.
    assert (Ht : exists t, pre ++ String "/" x = String "/" t) by (rewrite Hr; eexists; reflexivity).
    destruct Ht as [t Ht]. rewrite Ht. cbv beta iota zeta. rewrite <- Ht.
    rewrite str_length_app. simpl String.length.
    replace (String.length pre + S (String.length x) - 1) with (String.length pre + String.length x) by lia.
    rewrite find_end_last by (lia || exact Hxs).
    replace (Nat.eqb (String.length pre) 1) with false by (symmetry; apply Nat.eqb_neq; lia).
    rewrite andb_false_r. apply substring_prefix.
Qed.

Lemma app_firstn_S : forall (done_ : Path.path) s r n,
  (done_ ++ firstn (S n) (s :: r))%list = ((done_ ++ [s]) ++ firstn n r)%list.
Proof. intros. simpl. rewrite <- app_assoc. reflexivity. Qed.

Lemma app_neq_self : forall (q l : Path.path), l <> [] -> (q ++ l)%list <> q.
Proof.
  intros q l Hl E. apply (f_equal (@length string)) in E. rewrite length_app in E.
  destruct l; [contradiction | simpl in E; lia].
Qed.

Lemma firstn_nonempty : forall (r : list string) n, 0 < n <= length r -> firstn n r <> [].
Proof. intros r [|n] Hn; [lia|]. destruct r; simpl in *; [lia | discriminate]. Qed.

Lemma parent_check_iff : forall rest done_ d,
  FsWriter.parent_check done_ rest d = None <->
  forall n, 0 < n <= length rest -> Fs.lookup d (done_ ++ firstn n rest)%list = Some Fs.Dir.
Proof.
  induction rest as [|s r IH]; intros done_ d; simpl.
  - split; [intros _ n Hn; lia | reflexivity].
  - destruct (Fs.lookup d (done_ ++ [s])%list) as [[|c]|] eqn:E.
    + rewrite IH. split.
      * intros H [|n] Hn; [lia|]. destruct n as [|n].
        -- exact E.
        -- rewrite app_firstn_S. apply H. simpl in Hn; lia.
      * intros H n Hn. rewrite <- app_firstn_S. apply H. lia.
    + split; [discriminate|]. intros H. specialize (H 1 ltac:(lia)). simpl in H. congruence.
    + split; [discriminate|]. intros H. specialize (H 1 ltac:(lia)). simpl in H. congruence.
Qed.

Lemma firstn_removelast : forall (l : list string) n, n < length l -> firstn n (removelast l) = firstn n l.
Proof.
  intros l n Hn. destruct l as [|x l] using rev_ind; [simpl in Hn; lia|].
  rewrite removelast_last. rewrite length_app in Hn; simpl in Hn.
  rewrite firstn_app. replace (n - length l) with 0 by lia. simpl. rewrite app_nil_r. reflexivity.
Qed.

Lemma length_removelast : forall (l : list string), length (removelast l) = length l - 1.
Proof.
  intros l. destruct l as [|x l] using rev_ind; [reflexivity|].
  rewrite removelast_last, length_app. simpl. lia.
Qed.

Lemma createDirectory_ok_iff : forall s env d,
  let p := Ws.key env s in
  (Ws.mkdir_fails env p = false /\
   (forall n, 0 < n < length p -> Fs.lookup d (firstn n p) = Some Fs.Dir) /\
   Fs.exists_path d p = false ->
   FsWriter.createDirectory s env d = (inl tt, Ws.set_entry d p Fs.Dir)) /\
  (~ (Ws.mkdir_fails env p = false /\
      (forall n, 0 < n < length p -> Fs.lookup d (firstn n p) = Some Fs.Dir) /\
      Fs.exists_path d p = false) ->
   exists cause, FsWriter.createDirectory s env d =
     (inr ("Failed to create directory at " ++ s ++ ": " ++ cause), d)).
Proof.
  intros s env d p.
  assert (Hpc : FsWriter.parent_check [] (removelast p) d = None <->
                (forall n, 0 < n < length p -> Fs.lookup d (firstn n p) = Some Fs.Dir)).
  { rewrite parent_check_iff, length_removelast. split; intros H n Hn.
    - rewrite <- firstn_removelast by lia. apply H. lia.
    - rewrite firstn_removelast by lia. apply H. lia. }
  unfold FsWriter.createDirectory. fold p. split.
  - intros [H1 [H2 H3]]. rewrite H1. apply Hpc in H2. rewrite H2, H3. reflexivity.
  - intros Hn. destruct (Ws.mkdir_fails env p) eqn:E1; [eexists; reflexivity|].
    destruct (FsWriter.parent_check [] (removelast p) d) as [c|] eqn:E2; [eexists; reflexivity|].
    destruct (Fs.exists_path d p) eqn:E3; [eexists; reflexivity|].
    exfalso. apply Hn. split; [reflexivity|]. split; [apply Hpc; reflexivity | reflexivity].
Qed.

Lemma mkdir_walk_ok_iff : forall rest done_ d,
  fst (Ws.mkdir_walk done_ rest d) = None <->
  forall n c, 0 < n <= length rest -> Fs.lookup d (done_ ++ firstn n rest)%list <> Some (Fs.File c).
Proof.
  induction rest as [|s r IH]; intros done_ d; simpl.
  - split; [intros _ n c Hn; lia | reflexivity].
  - destruct (Fs.lookup d (done_ ++ [s])%list) as [[|c0]|] eqn:E.
    + rewrite IH. split.
      * intros H [|n] c Hn; [lia|]. destruct n as [|n].
        -- simpl. rewrite E. discriminate.
        -- rewrite app_firstn_S. apply H. simpl in Hn; lia.
      * intros H n c Hn. rewrite <- app_firstn_S. apply H. lia.
    + split; [discriminate|]. intros H. exfalso. apply (H 1 c0 ltac:(lia)). exact E.
    + rewrite IH. split.
      * intros H [|n] c Hn; [lia|]. destruct n as [|n].
        -- simpl. rewrite E. discriminate.
        -- rewrite app_firstn_S.
           specialize (H (S n) c ltac:(simpl in Hn; lia)).
           rewrite lookup_set_other in H; [exact H|].
           apply app_neq_self, firstn_nonempty. simpl in Hn; lia.
      * intros H n c Hn. rewrite lookup_set_other.
        -- rewrite <- app_firstn_S. apply H. lia.
        -- apply app_neq_self, firstn_nonempty. lia.
Qed.

Lemma mkdir_walk_effect : forall rest done_ d d',
  Ws.mkdir_walk done_ rest d = (None, d') ->
  (forall n, 0 < n <= length rest -> Fs.lookup d' (done_ ++ firstn n rest)%list = Some Fs.Dir) /\
  (forall k, (forall n, 0 < n <= length rest -> k <> (done_ ++ firstn n rest)%list) ->
     Fs.lookup d' k = Fs.lookup d k).
Proof.
  induction rest as [|s r IH]; intros done_ d d' H; simpl in H.
  - injection H as <-. split; [intros n Hn; simpl in Hn; lia | reflexivity].
  - destruct (Fs.lookup d (done_ ++ [s])%list) as [[|c0]|] eqn:E.
    + destruct (IH _ _ _ H) as [H1 H2]. split.
      * intros [|n] Hn; [lia|]. destruct n as [|n].
        -- simpl. eapply mkdir_walk_stable; eassumption.
        -- rewrite app_firstn_S. apply H1. simpl in Hn; lia.
      * intros k Hk. apply H2. intros n Hn. rewrite <- app_firstn_S. apply Hk. simpl; lia.
    + discriminate.
    + destruct (IH _ _ _ H) as [H1 H2]. split.
      * intros [|n] Hn; [lia|]. destruct n as [|n].
        -- simpl. rewrite H2; [apply lookup_set_same|].
           intros m Hm E'. symmetry in E'. revert E'. apply app_neq_self, firstn_nonempty. exact Hm.
        -- rewrite app_firstn_S. apply H1. simpl in Hn; lia.
      * intros k Hk. rewrite H2.
        -- apply lookup_set_other. specialize (Hk 1 ltac:(simpl; lia)). exact Hk.
        -- intros n Hn. rewrite <- app_firstn_S. apply Hk. simpl; lia.
Qed.

Lemma mkdir_walk_all_dirs : forall rest done_ d,
  (forall n, 0 < n <= length rest -> Fs.lookup d (done_ ++ firstn n rest)%list = Some Fs.Dir) ->
  Ws.mkdir_walk done_ rest d = (None, d).
Proof.
  induction rest as [|s r IH]; intros done_ d H; simpl; [reflexivity|].
  rewrite (H 1 ltac:(simpl; lia) : Fs.lookup d (done_ ++ [s])%list = Some Fs.Dir). apply IH.
  intros n Hn. rewrite <- app_firstn_S. apply H. simpl; lia.
Qed.

Lemma ensureDirectory_ok_iff : forall s env d,
  let p := Ws.key env s in
  fst (Ws.ensureDirectory s env d) = inl tt <->
  Ws.mkdir_fails env p = false /\
  (forall n c, 0 < n <= length p -> Fs.lookup d (firstn n p) <> Some (Fs.File c)).
Proof.
  intros s env d p. unfold Ws.ensureDirectory. fold p.
  pose proof (mkdir_walk_ok_iff p [] d) as Hw. simpl in Hw.
  destruct (Ws.mkdir_fails env p).
  - simpl. split; [discriminate | intros [H _]; discriminate].
  - destruct (Ws.mkdir_walk [] p d) as [[c|] d1]; simpl in *; rewrite <- Hw; split.
    + discriminate.
    + intros [_ H]; discriminate.
    + intros _; split; reflexivity.
    + reflexivity.
Qed.

Lemma ensureDirectory_effect : forall s env d d',
  let p := Ws.key env s in
  Ws.ensureDirectory s env d = (inl tt, d') ->
  (forall n, 0 < n <= length p -> Fs.lookup d' (firstn n p) = Some Fs.Dir) /\
  (forall k, (forall n, 0 < n <= length p -> k <> firstn n p) -> Fs.lookup d' k = Fs.lookup d k) /\
  Ws.ensureDirectory s env d' = (inl tt, d').
Proof.
  intros s env d d' p H. unfold Ws.ensureDirectory in *. fold p in H |- *.
  destruct (Ws.mkdir_fails env p); [discriminate|].
  destruct (Ws.mkdir_walk [] p d) as [[c|] d1] eqn:E; [discriminate|].
  injection H as <-. destruct (mkdir_walk_effect p [] d d1 E) as [H1 H2].
  split; [exact H1|]. split; [exact H2|].
  rewrite mkdir_walk_all_dirs; [reflexivity | exact H1].
Qed.

Lemma key_dirname_plain : forall env p, p <> [] -> Forall (fun s => plain_seg s = true) p ->
  Ws.key env (Dirname.dirname (Path.to_string p)) = removelast p.
Proof.
  intros env p Hne Hp. rewrite dirname_to_string by assumption.
  apply key_to_string, Forall_removelast, Hp.
Qed.

Lemma firstn_removelast_range : forall (p : list string) n,
  0 < n <= length (removelast p) <-> 0 < n < length p.
Proof. intros p n. rewrite length_removelast. destruct p; simpl; lia. Qed.

Lemma firstn_short_neq : forall (p : list string) n, n < length p -> p <> firstn n p.
Proof.
  intros p n Hn E. apply (f_equal (@length string)) in E. rewrite length_firstn in E. lia.
Qed.

Lemma writeFile_plain_ok_iff : forall env p c d,
  p <> [] -> Forall (fun s => plain_seg s = true) p ->
  fst (Ws.writeFile (Path.to_string p) c env d) = inl tt <->
  Ws.mkdir_fails env (removelast p) = false /\
  (forall n c', 0 < n < length p -> Fs.lookup d (firstn n p) <> Some (Fs.File c')) /\
  Fs.lookup d p <> Some Fs.Dir /\ Ws.write_fails env p = false.
Proof.
  intros env p c d Hne Hp.
  pose proof (ensureDirectory_ok_iff (Dirname.dirname (Path.to_string p)) env d) as Hok.
  cbv zeta in Hok. rewrite key_dirname_plain in Hok by assumption.
  unfold Ws.writeFile, Ws.catch_, Ws.bind, Ws.throw.
  destruct (Ws.ensureDirectory (Dirname.dirname (Path.to_string p)) env d) as [[u|e] d1] eqn:E1.
  - destruct u. destruct (proj1 Hok eq_refl) as [Hm Hf].
    pose proof (ensureDirectory_effect _ _ _ _ E1) as [_ [Hk _]]. cbv zeta in Hk.
    rewrite key_dirname_plain in Hk by assumption.
    assert (Hdp : Fs.lookup d1 p = Fs.lookup d p).
    { apply Hk. intros n Hn. rewrite firstn_removelast by (apply firstn_removelast_range; exact Hn).
      apply firstn_short_neq. apply firstn_removelast_range in Hn. lia. }
    unfold Ws.write_raw. rewrite key_to_string by exact Hp. rewrite Hdp.
    assert (Hf' : forall n c', 0 < n < length p -> Fs.lookup d (firstn n p) <> Some (Fs.File c')).
    { intros n c' Hn. rewrite <- firstn_removelast by lia. apply Hf. apply firstn_removelast_range; exact Hn. }
    destruct (Fs.lookup d p) as [[|c0]|] eqn:Ep;
      [ simpl; split; [discriminate | intros [_ [_ [H _]]]; contradiction] | | ];
      (destruct (Ws.write_fails env p); simpl;
         [split; [discriminate | intros [_ [_ [_ H]]]; discriminate]
         | split; [intros _; repeat split; auto; discriminate | reflexivity]]).
  - simpl. split; [discriminate|]. intros [Hm [Hf _]].
    assert (H : inr e = inl tt); [|discriminate]. apply Hok. split; [exact Hm|].
    intros n c' Hn. rewrite firstn_removelast by (apply firstn_removelast_range; exact Hn).
    apply Hf. apply firstn_removelast_range; exact Hn.
Qed.

Lemma writeFile_plain_effect : forall env p c d d',
  p <> [] -> Forall (fun s => plain_seg s = true) p ->
  Ws.writeFile (Path.to_string p) c env d = (inl tt, d') ->
  Fs.lookup d' p = Some (Fs.File c) /\
  (forall n, 0 < n < length p -> Fs.lookup d' (firstn n p) = Some Fs.Dir) /\
  (forall k, k <> p -> (forall n, 0 < n < length p -> k <> firstn n p) -> Fs.lookup d' k = Fs.lookup d k).
Proof.
  intros env p c d d' Hne Hp H.
  split; [rewrite <- (key_to_string env p Hp); eapply writeFile_ok; exact H|].
  unfold Ws.writeFile, Ws.catch_, Ws.bind, Ws.throw in H.
  destruct (Ws.ensureDirectory (Dirname.dirname (Path.to_string p)) env d) as [[[]|e] d1] eqn:E1;
    [|discriminate].
  destruct (Ws.write_raw (Path.to_string p) c env d1) as [[[]|e'] d2] eqn:E2; [|discriminate].
  injection H as <-.
  pose proof (ensureDirectory_effect _ _ _ _ E1) as [H1 [H2 _]]. cbv zeta in H1, H2.
  rewrite key_dirname_plain in H1, H2 by assumption.
  assert (Hw : forall k, k <> p -> Fs.lookup d2 k = Fs.lookup d1 k).
  { intros k Hk. unfold Ws.write_raw in E2. rewrite key_to_string in E2 by exact Hp.
    destruct (Fs.lookup d1 p) as [[|c0]|]; [discriminate| |];
      (destruct (Ws.write_fails env p); [discriminate|]); injection E2 as <-;
      apply lookup_set_other, Hk. }
  split.
  - intros n Hn. rewrite Hw by (apply not_eq_sym, firstn_short_neq; lia).
    rewrite <- firstn_removelast by lia. apply H1. apply firstn_removelast_range. exact Hn.
  - intros k Hk Hk'. rewrite Hw by exact Hk. apply H2. intros n Hn.
    rewrite firstn_removelast by (apply firstn_removelast_range; exact Hn).
    apply Hk'. apply firstn_removelast_range. exact Hn.
Qed.

(** X13: on an absolute path made of plain segments (no empty, [.] or
    [..] segment), [createDirectory] (a non-recursive [mkdir]) succeeds
    exactly when no failure is injected, every proper ancestor of the path
    is a directory and the path does not exist; it then adds the directory
    and nothing else. Otherwise it throws its wrapped message and leaves
    the disk unchanged. *)
Theorem createDirectory_spec : forall p env d,
  Forall (fun s => plain_seg s = true) p ->
  (Ws.mkdir_fails env p = false /\
   (forall n, 0 < n < length p -> Fs.lookup d (firstn n p) = Some Fs.Dir) /\
   Fs.exists_path d p = false ->
   FsWriter.createDirectory (Path.to_string p) env d = (inl tt, Ws.set_entry d p Fs.Dir)) /\
  (~ (Ws.mkdir_fails env p = false /\
      (forall n, 0 < n < length p -> Fs.lookup d (firstn n p) = Some Fs.Dir) /\
      Fs.exists_path d p = false) ->
   exists cause, FsWriter.createDirectory (Path.to_string p) env d =
     (inr ("Failed to create directory at " ++ Path.to_string p ++ ": " ++ cause), d)).
Proof.
  intros p env d Hp. pose proof (createDirectory_ok_iff (Path.to_string p) env d) as H.
  cbv zeta in H. rewrite key_to_string in H by exact Hp. exact H.
Qed.

Lemma createDirectory_spec_witness :
  FsWriter.createDirectory "/home/src" (env_at ["home"] false (Ws.Exited 0)) [(["home"], Fs.Dir)]
  = (inl tt, Ws.set_entry [(["home"], Fs.Dir)] ["home"; "src"] Fs.Dir).
Proof.
  apply (proj1 (createDirectory_spec ["home"; "src"] (env_at ["home"] false (Ws.Exited 0))
                  [(["home"], Fs.Dir)] ltac:(repeat constructor))).
  split; [reflexivity|]. split; [|reflexivity].
  intros [|[|n]] Hn; [lia | reflexivity | simpl in Hn; lia].
Defined.

(** X14: on an absolute path made of plain segments, [ensureDirectory] (a
    recursive [mkdir]) succeeds exactly when no failure is injected and
    neither the path nor any of its ancestors is a file. *)
Theorem ensureDirectory_succeeds_iff : forall p env d,
  Forall (fun s => plain_seg s = true) p ->
  fst (Ws.ensureDirectory (Path.to_string p) env d) = inl tt <->
  Ws.mkdir_fails env p = false /\
  (forall n c, 0 < n <= length p -> Fs.lookup d (firstn n p) <> Some (Fs.File c)).
Proof.
  intros p env d Hp. pose proof (ensureDirectory_ok_iff (Path.to_string p) env d) as H.
  cbv zeta in H. rewrite key_to_string in H by exact Hp. exact H.
Qed.

Lemma ensureDirectory_succeeds_iff_witness :
  fst (Ws.ensureDirectory "/home/a" (env_at ["home"] false (Ws.Exited 0)) [(["home"], Fs.Dir)])
  = inl tt.
Proof.
  apply (ensureDirectory_succeeds_iff ["home"; "a"] (env_at ["home"] false (Ws.Exited 0))
           [(["home"], Fs.Dir)] ltac:(repeat constructor)).
  split; [reflexivity|].
  intros [|[|[|n]]] c Hn; simpl in Hn; try lia; discriminate.
Defined.

(** X15: after a successful [ensureDirectory] on an absolute path made of
    plain segments, the path and all its ancestors are directories, every
    other path is as before, and a second call succeeds without changing
    the disk. *)
Theorem ensureDirectory_creates_ancestors : forall p env d d',
  Forall (fun s => plain_seg s = true) p ->
  Ws.ensureDirectory (Path.to_string p) env d = (inl tt, d') ->
  (forall n, 0 < n <= length p -> Fs.lookup d' (firstn n p) = Some Fs.Dir) /\
  (forall k, (forall n, 0 < n <= length p -> k <> firstn n p) -> Fs.lookup d' k = Fs.lookup d k) /\
  Ws.ensureDirectory (Path.to_string p) env d' = (inl tt, d').
Proof.
  intros p env d d' Hp H. pose proof (ensureDirectory_effect (Path.to_string p) env d d' H) as R.
  cbv zeta in R. rewrite key_to_string in R by exact Hp. exact R.
Qed.

Lemma ensureDirectory_creates_ancestors_witness :
  Ws.ensureDirectory "/home/a/b" (env_at ["home"] false (Ws.Exited 0))
    (snd (Ws.ensureDirectory "/home/a/b" (env_at ["home"] false (Ws.Exited 0)) []))
  = (inl tt, snd (Ws.ensureDirectory "/home/a/b" (env_at ["home"] false (Ws.Exited 0)) [])).
Proof.
  exact (proj2 (proj2 (ensureDirectory_creates_ancestors ["home"; "a"; "b"]
    (env_at ["home"] false (Ws.Exited 0)) []
    (snd (Ws.ensureDirectory "/home/a/b" (env_at ["home"] false (Ws.Exited 0)) []))
    ltac:(repeat constructor) eq_refl))).
Defined.

(** X16: on the string of an absolute path made of plain segments,
    [dirname] gives the string of the path without its last segment (the
    root ['/'] for a one-segment path). *)
Theorem dirname_plain_path : forall p, p <> [] -> Forall (fun s => plain_seg s = true) p ->
  Dirname.dirname (Path.to_string p) = Path.to_string (removelast p).
Proof. exact dirname_to_string. Qed.

Lemma dirname_plain_path_witness :
  Dirname.dirname (Path.to_string ["home"; "app"; "lib.rs"]) = Path.to_string ["home"; "app"].
Proof.
  exact (dirname_plain_path ["home"; "app"; "lib.rs"] ltac:(discriminate) ltac:(repeat constructor)).
Defined.

(** X17: writing a file at an absolute path of plain segments succeeds
    exactly when creating its parent directory is not failed by
    injection, no proper ancestor of the path is a file, the path itself
    is not a directory, and the write is not failed by injection. *)
Theorem writeFile_succeeds_iff : forall env p c d,
  p <> [] -> Forall (fun s => plain_seg s = true) p ->
  fst (Ws.writeFile (Path.to_string p) c env d) = inl tt <->
  Ws.mkdir_fails env (removelast p) = false /\
  (forall n c', 0 < n < length p -> Fs.lookup d (firstn n p) <> Some (Fs.File c')) /\
  Fs.lookup d p <> Some Fs.Dir /\ Ws.write_fails env p = false.
Proof. exact writeFile_plain_ok_iff. Qed.

Lemma writeFile_succeeds_iff_witness :
  fst (Ws.writeFile (Path.to_string ["home"; "a.txt"]) "x" (env_at ["home"] false (Ws.Exited 0))
         [(["home"], Fs.Dir)]) = inl tt.
Proof.
  apply (writeFile_succeeds_iff (env_at ["home"] false (Ws.Exited 0)) ["home"; "a.txt"] "x"
           [(["home"], Fs.Dir)] ltac:(discriminate) ltac:(repeat constructor)).
  split; [reflexivity|]. split; [|split; [discriminate | reflexivity]].
  intros [|[|n]] c' Hn; [lia | discriminate | simpl in Hn; lia].
Defined.

(** X18: after a successful write at an absolute path of plain segments,
    the path holds a file with the written content, each proper ancestor
    is a directory, and every other path is as before. *)
Theorem writeFile_effect : forall env p c d d',
  p <> [] -> Forall (fun s => plain_seg s = true) p ->
  Ws.writeFile (Path.to_string p) c env d = (inl tt, d') ->
  Fs.lookup d' p = Some (Fs.File c) /\
  (forall n, 0 < n < length p -> Fs.lookup d' (firstn n p) = Some Fs.Dir) /\
  (forall k, k <> p -> (forall n, 0 < n < length p -> k <> firstn n p) -> Fs.lookup d' k = Fs.lookup d k).
Proof. exact writeFile_plain_effect. Qed.

Lemma writeFile_effect_witness :
  Fs.lookup (snd (Ws.writeFile (Path.to_string ["home"; "a"; "b.txt"]) "x"
                    (env_at ["home"] false (Ws.Exited 0)) []))
    ["home"; "a"; "b.txt"] = Some (Fs.File "x").
Proof.
  exact (proj1 (writeFile_effect (env_at ["home"] false (Ws.Exited 0)) ["home"; "a"; "b.txt"] "x" []
    (snd (Ws.writeFile (Path.to_string ["home"; "a"; "b.txt"]) "x" (env_at ["home"] false (Ws.Exited 0)) []))
    ltac:(discriminate) ltac:(repeat constructor) eq_refl)).
Defined.

(** ** [FileSystemWriter.writeFiles] *)

Lemma write_loop_disk : forall files n errs env d,
  snd (FsWriter.write_loop files n errs env d) = write_each files env d.
Proof.
  unfold write_each.
  induction files as [|f r IH]; intros n errs env d; simpl; [reflexivity|].
  unfold Ws.bind at 1, Ws.catch_, Ws.bind, Ws.ret.
  destruct (Ws.writeFile (Tpl.path f) (Tpl.content f) env d) as [[[]|e] d1]; simpl; apply IH.
Qed.

Lemma write_loop_result : forall files n errs env d, exists k errs',
  fst (FsWriter.write_loop files n errs env d) = inl (n + k, (errs ++ errs')%list) /\
  k + length errs' = length files /\
  forall x, In x errs' -> exists f e, In f files /\ x = Tpl.path f ++ ": " ++ e.
Proof.
  induction files as [|f r IH]; intros n errs env d; simpl.
  - exists 0, []. rewrite Nat.add_0_r, app_nil_r. split; [reflexivity|]. split; [reflexivity | contradiction].
  - unfold Ws.bind at 1, Ws.catch_, Ws.bind, Ws.ret.
    destruct (Ws.writeFile (Tpl.path f) (Tpl.content f) env d) as [[[]|e] d1]; simpl.
    + destruct (IH (S n) errs env d1) as [k [errs' [H1 [H2 H3]]]].
      exists (S k), errs'. rewrite H1, Nat.add_succ_r. split; [reflexivity|]. split; [lia|].
      intros x Hx. destruct (H3 x Hx) as [f' [e' [Hf' ->]]]. exists f', e'. split; [right; exact Hf' | reflexivity].
    + destruct (IH n (errs ++ [(Tpl.path f ++ ": " ++ e)%string])%list env d1) as [k [errs' [H1 [H2 H3]]]].
      exists k, ((Tpl.path f ++ ": " ++ e) :: errs'). simpl in H1. rewrite H1, <- app_assoc. split; [reflexivity|].
      split; [simpl; lia|].
      intros x [<-|Hx].
      * exists f, e. split; [left; reflexivity | reflexivity].
      * destruct (H3 x Hx) as [f' [e' [Hf' ->]]]. exists f', e'. split; [right; exact Hf' | reflexivity].
Qed.

Lemma write_loop_generate : forall files n errs env d d',
  Ws.generateFiles files env d = (inl tt, d') ->
  FsWriter.write_loop files n errs env d = (inl (n + length files, errs), d').
Proof.
  unfold Ws.generateFiles.
  induction files as [|f r IH]; intros n errs env d d' H; simpl in *.
  - injection H as <-. rewrite Nat.add_0_r. reflexivity.
  - unfold Ws.bind in H. unfold Ws.bind at 1, Ws.catch_, Ws.bind, Ws.ret.
    destruct (Ws.writeFile (Tpl.path f) (Tpl.content f) env d) as [[[]|e] d1]; [|discriminate].
    simpl. rewrite (IH (S n) errs env d1 d' H). rewrite Nat.add_succ_r. reflexivity.
Qed.

Lemma writeFiles_outcome : forall files env d,
  snd (FsWriter.writeFiles files env d) = write_each files env d /\
  (fst (FsWriter.writeFiles files env d) = inl (length files) \/
   exists errs, 1 <= length errs <= length files /\
     (forall x, In x errs -> exists f e, In f files /\ x = Tpl.path f ++ ": " ++ e) /\
     fst (FsWriter.writeFiles files env d) =
       inr ("Failed to write " ++ Val.to_string (Val.JNum (Val.Fin (Z.of_nat (length errs))))
            ++ " file(s):" ++ Js.nl ++ String.concat Js.nl errs)).
Proof.
  intros files env d.
  pose proof (write_loop_disk files 0 [] env d) as Hd.
  destruct (write_loop_result files 0 [] env d) as [k [errs [H1 [H2 H3]]]].
  unfold FsWriter.writeFiles, Ws.bind.
  destruct (FsWriter.write_loop files 0 [] env d) as [r d1]. simpl in H1, Hd. subst r d1. simpl.
  destruct errs as [|x errs'] eqn:Ee; simpl.
  - split; [reflexivity|]. left. simpl in H2. f_equal. lia.
  - split; [reflexivity|]. right. exists (x :: errs'). split; [simpl in *; lia|].
    split; [exact H3 | reflexivity].
Qed.

Lemma writeFiles_generate : forall files env d d',
  Ws.generateFiles files env d = (inl tt, d') ->
  FsWriter.writeFiles files env d = (inl (length files), d').
Proof.
  intros files env d d' H. unfold FsWriter.writeFiles, Ws.bind.
  rewrite (write_loop_generate files 0 [] env d d' H). reflexivity.
Qed.

(** X20: [writeFiles] attempts every file in order, a failure not stopping
    the batch: its disk is the one of writing each file in turn. It returns
    the number of files when all writes succeed, and otherwise throws
    ['Failed to write k file(s):'] followed by [k] lines, [1 <= k <=] the
    number of files, each a file's path, [': '] and its write error. *)
Theorem writeFiles_result : forall files env d,
  snd (FsWriter.writeFiles files env d) = write_each files env d /\
  (fst (FsWriter.writeFiles files env d) = inl (length files) \/
   exists errs, 1 <= length errs <= length files /\
     (forall x, In x errs -> exists f e, In f files /\ x = Tpl.path f ++ ": " ++ e) /\
     fst (FsWriter.writeFiles files env d) =
       inr ("Failed to write " ++ Val.to_string (Val.JNum (Val.Fin (Z.of_nat (length errs))))
            ++ " file(s):" ++ Js.nl ++ String.concat Js.nl errs)).
Proof. exact writeFiles_outcome. Qed.

(** X21: when the workspace generator's [generateFiles] (which stops at
    the first failure) succeeds on a list of files, [writeFiles] on the
    same list returns the number of files and leaves the same disk. *)
Theorem writeFiles_after_generateFiles : forall files env d d',
  Ws.generateFiles files env d = (inl tt, d') ->
  FsWriter.writeFiles files env d = (inl (length files), d').
Proof. exact writeFiles_generate. Qed.

Lemma writeFiles_after_generateFiles_witness :
  FsWriter.writeFiles [Gen.createFile "/home/a/b.txt" "x"] (env_at ["home"] false (Ws.Exited 0)) []
  = (inl 1, snd (Ws.generateFiles [Gen.createFile "/home/a/b.txt" "x"] (env_at ["home"] false (Ws.Exited 0)) [])).
Proof.
  exact (writeFiles_after_generateFiles [Gen.createFile "/home/a/b.txt" "x"]
    (env_at ["home"] false (Ws.Exited 0)) []
    (snd (Ws.generateFiles [Gen.createFile "/home/a/b.txt" "x"] (env_at ["home"] false (Ws.Exited 0)) []))
    eq_refl).
Defined.

(** ** [ProgressReporter] *)

Lemma call_bracketed : forall o st evs,
  bracketed (spinning st) (snd (Progress.call o st) ++ evs)%list
  = bracketed (spinning (fst (Progress.call o st))) evs.
Proof.
  intros [m|m|e|m|] [[sp|] cs] evs; reflexivity.
Qed.

Lemma run_bracketed : forall ops st,
  bracketed (spinning st) (snd (Progress.run ops st)) = Some (spinning (fst (Progress.run ops st))).
Proof.
  induction ops as [|o ops IH]; intros st; [reflexivity|].
  simpl. pose proof (call_bracketed o st) as Hc.
  destruct (Progress.call o st) as [st1 e1] eqn:E. simpl in Hc.
  specialize (IH st1). destruct (Progress.run ops st1) as [st2 e2]. simpl in *.
  rewrite Hc. exact IH.
Qed.

Lemma run_updates_complete : forall us sp m msg,
  msg = None \/ msg = Some "" ->
  Progress.run (map Progress.UpdateStep us ++ [Progress.CompleteStep msg])%list
    {| Progress.spinner := Some sp; Progress.currentStep := Some m |}
  = (Progress.initial, [Progress.Succeed (if String.eqb m "" then "Done" else m)]).
Proof.
  induction us as [|u us IH]; intros sp m msg Hmsg.
  - destruct Hmsg as [-> | ->]; reflexivity.
  - simpl map. simpl app. cbn [Progress.run Progress.call Progress.updateStep Progress.spinner].
    cbn [Progress.currentStep]. rewrite (IH u m msg Hmsg). reflexivity.
Qed.

Lemma start_update_complete : forall m us msg,
  msg = None \/ msg = Some "" ->
  Progress.run (Progress.StartStep m :: map Progress.UpdateStep us ++ [Progress.CompleteStep msg])%list
    Progress.initial
  = (Progress.initial, [Progress.Start m; Progress.Succeed (if String.eqb m "" then "Done" else m)]).
Proof.
  intros m us msg Hmsg. cbn [Progress.run Progress.call Progress.startStep Progress.spinner Progress.initial].
  rewrite run_updates_complete by exact Hmsg. reflexivity.
Qed.

(** X22: whatever sequence of calls is made on a reporter, the spinner
    events it emits are well bracketed: no spinner is started while
    another runs (the running one is stopped first), every stop, success
    or failure ends a running spinner, and at the end a spinner runs
    exactly when the reporter holds one. *)
Theorem progress_spinners_bracketed : forall ops st,
  bracketed (spinning st) (snd (Progress.run ops st)) = Some (spinning (fst (Progress.run ops st))).
Proof. exact run_bracketed. Qed.

(** X23: a step started with message [m], whose spinner text is then
    updated any number of times, and completed without a message (or with
    an empty one) succeeds with the original message [m], or ['Done'] when
    [m] is empty, and leaves the reporter idle. *)
Theorem progress_complete_label : forall m us msg,
  msg = None \/ msg = Some "" ->
  Progress.run (Progress.StartStep m :: map Progress.UpdateStep us ++ [Progress.CompleteStep msg])%list
    Progress.initial
  = (Progress.initial, [Progress.Start m; Progress.Succeed (if String.eqb m "" then "Done" else m)]).
Proof. exact start_update_complete. Qed.

Lemma progress_complete_label_witness :
  Progress.run [Progress.StartStep "Building"; Progress.UpdateStep "Building (50%)";
                Progress.CompleteStep None] Progress.initial
  = (Progress.initial, [Progress.Start "Building"; Progress.Succeed "Building"]).
Proof. exact (progress_complete_label "Building" ["Building (50%)"] None (or_introl eq_refl)). Defined.

(** ** Identifiers derived from the project name *)

Lemma name_char_replaced : forall c, Js.is_name_char c = true ->
  ident_char (if Ascii.eqb c "-"%char then "_"%char else c) = true.
Proof. intros c; destruct c as [[] [] [] [] [] [] [] []]; vm_compute; congruence. Qed.

Lemma letter_replaced : forall c, Js.is_letter c = true ->
  (if Ascii.eqb c "-"%char then "_"%char else c) = c.
Proof. intros c; destruct c as [[] [] [] [] [] [] [] []]; vm_compute; congruence. Qed.

Lemma letter_ident : forall c, Js.is_letter c = true -> ident_char c = true.
Proof. intros c H. unfold ident_char. rewrite H. reflexivity. Qed.

Lemma replace_hyphens_chars : forall s, Js.all_chars Js.is_name_char s = true ->
  Js.all_chars ident_char (Js.replace_hyphens s) = true.
Proof.
  induction s as [|c r IH]; simpl; [reflexivity|]. intros H. apply andb_prop in H as [H1 H2].
  rewrite name_char_replaced by exact H1. apply IH, H2.
Qed.

Lemma replace_hyphens_ident : forall name, claimed_name_pattern name = true ->
  exists c r, Js.replace_hyphens name = String c r /\ Js.is_letter c = true /\
    Js.all_chars ident_char r = true.
Proof.
  intros [|c r] H; [discriminate|]. simpl in H. apply andb_prop in H as [H1 H2].
  exists c, (Js.replace_hyphens r). simpl. rewrite letter_replaced by exact H1.
  split; [reflexivity|]. split; [exact H1|]. apply replace_hyphens_chars, H2.
Qed.

Lemma split_char_nonempty : forall sep s, Gen.split_char sep s <> [].
Proof.
  intros sep [|c r]; simpl; [discriminate|].
  destruct (Ascii.eqb c sep); [discriminate|]. destruct (Gen.split_char sep r); discriminate.
Qed.

Lemma ident_not_sep_alnum : forall c, ident_char c = true -> Ascii.eqb c "_"%char = false -> alnum c = true.
Proof. intros c; destruct c as [[] [] [] [] [] [] [] []]; vm_compute; congruence. Qed.

Lemma split_char_alnum : forall s, Js.all_chars ident_char s = true ->
  Forall (fun w => Js.all_chars alnum w = true) (Gen.split_char "_"%char s).
Proof.
  induction s as [|c r IH]; intros H; simpl.
  - constructor; [reflexivity | constructor].
  - apply andb_prop in H as [H1 H2]. specialize (IH H2).
    destruct (Ascii.eqb c "_"%char) eqn:E.
    + constructor; [reflexivity | exact IH].
    + pose proof (ident_not_sep_alnum c H1 E) as Hc.
      destruct (Gen.split_char "_"%char r) as [|h t]; [constructor; [simpl; rewrite Hc; reflexivity | constructor]|].
      inversion IH; subst. constructor; [simpl; rewrite Hc; assumption | assumption].
Qed.

Lemma upper_alnum : forall c, alnum c = true -> alnum (Gen.upper_char c) = true.
Proof. intros c; destruct c as [[] [] [] [] [] [] [] []]; vm_compute; congruence. Qed.

Lemma upper_letter : forall c, Js.is_letter c = true ->
  65 <= Js.code (Gen.upper_char c) <= 90.
Proof.
  intros c; destruct c as [[] [] [] [] [] [] [] []]; vm_compute; try discriminate; intros _; lia.
Qed.

Lemma capitalize_alnum : forall w, Js.all_chars alnum w = true -> Js.all_chars alnum (Gen.capitalize w) = true.
Proof.
  intros [|c r] H; [reflexivity|]. simpl in *. apply andb_prop in H as [H1 H2].
  rewrite upper_alnum by exact H1. exact H2.
Qed.

Lemma concat_empty_cons : forall x xs, String.concat "" (x :: xs) = x ++ String.concat "" xs.
Proof. intros x [|y ys]; [symmetry; apply string_app_nil_r | reflexivity]. Qed.

Lemma concat_alnum : forall ws, Forall (fun w => Js.all_chars alnum w = true) ws ->
  Js.all_chars alnum (String.concat "" ws) = true.
Proof.
  induction ws as [|w ws IH]; intros H; [reflexivity|].
  inversion H; subst. rewrite concat_empty_cons, all_chars_app. rewrite H2, IH by assumption. reflexivity.
Qed.

Lemma toPascalCase_ident : forall name, claimed_name_pattern name = true ->
  exists c r, Gen.toPascalCase (Js.replace_hyphens name) = String c r /\
    65 <= Js.code c <= 90 /\ Js.all_chars alnum r = true.
Proof.
  intros name H. destruct (replace_hyphens_ident name H) as [c [r [Hs [Hc Hr]]]]. rewrite Hs.
  unfold Gen.toPascalCase.
  pose proof (split_char_alnum (String c r)) as Ha. simpl in Ha. rewrite letter_ident in Ha by exact Hc.
  specialize (Ha Hr).
  assert (Hc' : Ascii.eqb c "_"%char = false) by (destruct c as [[] [] [] [] [] [] [] []]; vm_compute in Hc |- *; congruence).
  simpl Gen.split_char in Ha |- *. rewrite Hc' in Ha |- *.
  destruct (Gen.split_char "_"%char r) as [|h t] eqn:Et; [exfalso; exact (split_char_nonempty _ _ Et)|].
  inversion Ha as [|? ? Hh Ht]; subst.
  cbn [map]. rewrite concat_empty_cons. cbn [Gen.capitalize String.append].
  exists (Gen.upper_char c), (h ++ String.concat "" (map Gen.capitalize t)).
  split; [reflexivity|]. split; [apply upper_letter, Hc|].
  simpl in Hh. apply andb_prop in Hh as [_ Hh].
  rewrite all_chars_app, Hh. simpl. apply concat_alnum.
  apply Forall_map. eapply Forall_impl; [|exact Ht]. intros w Hw. apply capitalize_alnum, Hw.
Qed.

(** X24: for a project name accepted by [validateProjectName], the
    generators' [programName] (the name with each hyphen replaced by an
    underscore) starts with a letter and has only letters, digits and
    underscores. *)
Theorem programName_identifier : forall cwd d ctx,
  Validator.validateProjectName cwd d (Tpl.projectName ctx) = inl true ->
  exists c r, Gen.programName ctx = String c r /\ Js.is_letter c = true /\
    Js.all_chars ident_char r = true.
Proof.
  intros cwd d ctx H. apply validateProjectName_ok_iff in H as [H _].
  exact (replace_hyphens_ident _ H).
Qed.

Lemma programName_identifier_witness :
  exists c r, Gen.programName {| Tpl.projectName := "my-app"; Tpl.projectPath := "my-app";
                                 Tpl.options := [] |} = String c r
    /\ Js.is_letter c = true /\ Js.all_chars ident_char r = true.
Proof.
  exact (programName_identifier ["home"] []
    {| Tpl.projectName := "my-app"; Tpl.projectPath := "my-app"; Tpl.options := [] |} eq_refl).
Defined.

(** X25: for a project name accepted by [validateProjectName],
    [toPascalCase] of the program name starts with an upper-case letter
    [A-Z] and has only letters and digits. *)
Theorem toPascalCase_identifier : forall cwd d ctx,
  Validator.validateProjectName cwd d (Tpl.projectName ctx) = inl true ->
  exists c r, Gen.toPascalCase (Gen.programName ctx) = String c r /\
    65 <= Js.code c <= 90 /\ Js.all_chars alnum r = true.
Proof.
  intros cwd d ctx H. apply validateProjectName_ok_iff in H as [H _].
  exact (toPascalCase_ident _ H).
Qed.

Lemma toPascalCase_identifier_witness :
  exists c r, Gen.toPascalCase (Gen.programName {| Tpl.projectName := "my-app"; Tpl.projectPath := "my-app";
                                                   Tpl.options := [] |}) = String c r
    /\ 65 <= Js.code c <= 90 /\ Js.all_chars alnum r = true.
Proof.
  exact (toPascalCase_identifier ["home"] []
    {| Tpl.projectName := "my-app"; Tpl.projectPath := "my-app"; Tpl.options := [] |} eq_refl).
Defined.
